(** * A consolidated multi-venue order book: model and verification

    Shallow embedding of [orderbook.cpp]: the tick codec, [PriceLevel],
    [SideBook] and the [OrderBook] coordinator with its four event
    entry points, followed by the properties of the specification.

    Conventions of the embedding.
    - [uint32_t] and [int] values are integers in [Z]; every arithmetic
      step of the source that can wrap is written with [wrap32] or
      [to_int].
    - [double] prices are exact rationals ([Q]); binary rounding of
      floating point is outside the model.
    - [std::set<int>] is a [gset Z], [std::unordered_map] a [gmap].
    - A call either returns or throws; a throw keeps the state reached
      at the throwing statement ([outcome]).
    - The pointer [Meta::sb] always points to one of the two side books
      of the coordinator that owns it and is a Boolean tag
      ([true] for [bid_]). *)

From Stdlib Require Import QArith Ascii.
From stdpp Require Import gmap strings list fin_maps sorting.

Local Open Scope Z_scope.

(** ** Constants and helpers *)

Definition INV_TICK : Z := 100.
Definition TICK : Q := 1 # 100.
Definition NUM_VENUES : nat := 14.

Definition INT_MAX : Z := 2 ^ 31 - 1.
Definition INT_MIN : Z := - 2 ^ 31.

(** Reduction of an integer to [uint32_t]. *)
Definition wrap32 (z : Z) : Z := z mod 2 ^ 32.

(** Conversion to [int] (two's complement). *)
Definition to_int (z : Z) : Z := (z + 2 ^ 31) mod 2 ^ 32 - 2 ^ 31.

Definition VENUES : list string :=
  ["CBOE"; "ISE"; "BOX"; "MIAX"; "ARCA"; "PHLX"; "GEM"; "EDGX";
   "BAT"; "MRX"; "BZX"; "NDQ"; "C2"; "AMEX"]%string.

Definition VENUE_MAP : list (string * nat) :=
  [("CBOE", 0); ("ISE", 1); ("BOX", 2); ("MIAX", 3); ("ARCA", 4);
   ("PHLX", 5); ("GEM", 6); ("EDGX", 7); ("BAT", 8); ("MRX", 9);
   ("BZX", 10); ("NDQ", 11); ("C2", 12); ("AMEX", 13)]%string%nat.

(** Modelled from the spec: the table [VENUE_CODE] read by
    [venue_string] is not declared in the source; section 6 of the
    specification gives one single-character code per venue, in the
    order of [VENUES]. *)
Definition VENUE_CODE : list ascii :=
  ["C"; "I"; "B"; "M"; "A"; "P"; "G"; "E"; "T"; "R"; "Z"; "N"; "2"; "X"]%char.

(** Modelled from the spec: [on_add] receives a one-character venue code
    and resolves it with [VENUE_MAP.at]; the key of entry [i] is taken
    to be the code [VENUE_CODE[i]] of that venue.  [None] stands for the
    [std::out_of_range] of [at]. *)
Definition VENUE_MAP_at (venue_code : ascii) : option nat :=
  snd <$> find (λ e, bool_decide (VENUE_CODE !! snd e = Some venue_code)) VENUE_MAP.

(** The cast [int(x)] of a rational: truncation toward zero.  The source
    computes [p*INV_TICK + 0.5] in binary64 and casts to a 32-bit [int],
    which is undefined out of range; the model computes exactly and is
    the tick of the source only for prices whose tick lies in the range
    of [int], the range the statements on prices assume. *)
Definition Qtrunc (q : Q) : Z := Z.quot (Qnum q) (Z.pos (Qden q)).

Definition p2i (p : Q) : Z := Qtrunc (p * inject_Z INV_TICK + (1 # 2))%Q.
Definition i2p (idx : Z) : Q := (inject_Z idx * TICK)%Q.

(** ** PriceLevel *)

Record PriceLevel := mkLevel { vqty : list Z; agg : Z }.

(** Value initialisation: [vqty{}] and [agg{0}]. *)
Definition PriceLevel_new : PriceLevel := mkLevel (replicate NUM_VENUES 0) 0.

(** [vqty[i]]; the array has [NUM_VENUES] cells and every index the
    program forms is below that. *)
Definition cell (l : list Z) (i : nat) : Z := default 0 (l !! i).

(** [vqty[vid] += d; agg += d] on [uint32_t] fields with an [int] delta. *)
Definition adjust (pl : PriceLevel) (vid : nat) (d : Z) : PriceLevel :=
  mkLevel (alter (λ q, wrap32 (q + d)) vid (vqty pl)) (wrap32 (agg pl + d)).

(** ** SideBook *)

Record SideBook := mkSide {
  is_bid_ : bool;
  ticks_ : gset Z;
  levels_ : gmap Z PriceLevel
}.

Definition SideBook_new (is_bid : bool) : SideBook := mkSide is_bid ∅ ∅.

Definition sentinel (is_bid : bool) : Z := if is_bid then -1 else INT_MAX.

(** [*ticks_.rbegin()] and [*ticks_.begin()] of a non-empty ordered set. *)
Definition best_idx (sb : SideBook) : Z :=
  match elements (ticks_ sb) with
  | [] => sentinel (is_bid_ sb)
  | t :: ts => if is_bid_ sb then foldr Z.max t ts else foldr Z.min t ts
  end.

(** [NAN] is [None]. *)
Definition best_price (sb : SideBook) : option Q :=
  let b := best_idx sb in
  if is_bid_ sb && bool_decide (b = -1) then None
  else if negb (is_bid_ sb) && bool_decide (b = INT_MAX) then None
  else Some (i2p b).

(** [SideBook::add].  [levels_[idx]] creates the level when it is
    absent.  The guard of the source reads [prev], a name that is not
    declared; the only variable it can stand for is [prev_best]. *)
Definition add (sb : SideBook) (idx : Z) (vid : nat) (qty : Z) : SideBook * Z :=
  let pl := default PriceLevel_new (levels_ sb !! idx) in
  let prev_best := best_idx sb in
  let first := bool_decide (agg pl = 0) in
  let pl' := adjust pl vid (to_int qty) in
  let ticks' := if first then {[idx]} ∪ ticks_ sb else ticks_ sb in
  let sb' := mkSide (is_bid_ sb) ticks' (<[idx := pl']> (levels_ sb)) in
  let new_best := best_idx sb' in
  if bool_decide (prev_best = sentinel (is_bid_ sb)) then (sb', INT_MIN)
  else (sb', if bool_decide (new_best ≠ prev_best) then prev_best else INT_MIN).

(** [SideBook::remove]; [None] is the [std::out_of_range] of
    [levels_.at(idx)], thrown before anything is changed. *)
Definition remove (sb : SideBook) (idx : Z) (vid : nat) (qty : Z) : option SideBook :=
  match levels_ sb !! idx with
  | None => None
  | Some pl =>
      let pl' := adjust pl vid (to_int (- to_int qty)) in
      if bool_decide (agg pl' = 0)
      then Some (mkSide (is_bid_ sb) (ticks_ sb ∖ {[idx]}) (delete idx (levels_ sb)))
      else Some (mkSide (is_bid_ sb) (ticks_ sb) (<[idx := pl']> (levels_ sb)))
  end.

(** [SideBook::snapshot], as the list of (venue name, quantity) pairs in
    venue order. *)
Definition snapshot_level (sb : SideBook) (idx : Z) : list (string * Z) :=
  match levels_ sb !! idx with
  | None => []
  | Some pl => filter (λ e, e.2 ≠ 0) (zip VENUES (vqty pl))
  end.

(** ** OrderBook *)

Record Meta := mkMeta { sb : bool; idx : Z; vid : nat; qty : Z }.

Record OrderBook := mkBook {
  bid_ : SideBook;
  ask_ : SideBook;
  omap_ : gmap string Meta
}.

Definition OrderBook_new : OrderBook :=
  mkBook (SideBook_new true) (SideBook_new false) ∅.

(** The side book a [Meta::sb] pointer designates, and its update. *)
Definition side (st : OrderBook) (b : bool) : SideBook :=
  if b then bid_ st else ask_ st.

Definition with_side (st : OrderBook) (b : bool) (s : SideBook) : OrderBook :=
  if b then mkBook s (ask_ st) (omap_ st) else mkBook (bid_ st) s (omap_ st).

Definition with_omap (st : OrderBook) (om : gmap string Meta) : OrderBook :=
  mkBook (bid_ st) (ask_ st) om.

(** Result of a call: normal return with a value, or an exception; both
    carry the state of the book at that point. *)
Inductive outcome (A : Type) : Type :=
| Returned (st : OrderBook) (res : A)
| Thrown (st : OrderBook).
Arguments Returned {A} st res.
Arguments Thrown {A} st.

Definition final {A} (o : outcome A) : OrderBook :=
  match o with Returned st _ => st | Thrown st => st end.

Record NbboChange := mkNbbo {
  new_price : Q; new_agg : Z; old_price : Q; old_agg : Z;
  old_venue_string : string
}.

Record ExecutionReport := mkExec {
  exec_price : Q; level_remaining : Z; per_venue_qty : list Z;
  venue_str : string
}.

(** Order of [char] values used by [std::sort]. *)
Definition char_le (a b : ascii) : Prop := (N_of_ascii a <= N_of_ascii b)%N.

#[global] Instance char_le_dec : RelDecision char_le.
Proof. intros a b. unfold char_le. apply _. Defined.

(** The characters pushed by the loop of [venue_string], before sorting. *)
Definition venue_chars (pl : PriceLevel) : list ascii :=
  omap (λ i, if bool_decide (cell (vqty pl) i ≠ 0) then VENUE_CODE !! i else None)
       (seq 0 NUM_VENUES).

Definition venue_string (pl : PriceLevel) : string :=
  String.string_of_list_ascii (merge_sort char_le (venue_chars pl)).

(** [nbbo_tuple]; [None] when one of the two [levels().at] throws. *)
Definition nbbo_tuple (s : SideBook) (new_idx old_idx : Z) : option NbboChange :=
  match levels_ s !! new_idx, levels_ s !! old_idx with
  | Some new_pl, Some old_pl =>
      Some (mkNbbo (i2p new_idx) (agg new_pl) (i2p old_idx) (agg old_pl)
                   (venue_string old_pl))
  | _, _ => None
  end.

Definition on_add (st : OrderBook) (oid : string) (venue_code : ascii)
    (side_b : string) (price : Q) (qty : Z) : outcome (option NbboChange) :=
  let bid := bool_decide (side_b = "BID"%string) in
  let idx := p2i price in
  match VENUE_MAP_at venue_code with
  | None => Thrown st
  | Some vid =>
      let '(s1, prev_best) := add (side st bid) idx vid qty in
      let st1 := with_omap (with_side st bid s1)
                           (<[oid := mkMeta bid idx vid qty]> (omap_ st)) in
      if bool_decide (prev_best ≠ INT_MIN) then
        match nbbo_tuple s1 idx prev_best with
        | Some r => Returned st1 (Some r)
        | None => Thrown st1
        end
      else Returned st1 None
  end.

(** The state [on_add] leaves once the venue is resolved, whatever it
    returns. *)
Definition on_add_state (st : OrderBook) (oid : string) (v : nat)
    (side_b : string) (price : Q) (qty : Z) : OrderBook :=
  let bid := bool_decide (side_b = "BID"%string) in
  with_omap (with_side st bid (add (side st bid) (p2i price) v qty).1)
            (<[oid := mkMeta bid (p2i price) v qty]> (omap_ st)).

Definition on_cancel (st : OrderBook) (oid : string) : outcome unit :=
  match omap_ st !! oid with
  | None => Returned st ()
  | Some m =>
      let st1 := with_omap st (delete oid (omap_ st)) in
      match remove (side st1 (sb m)) (idx m) (vid m) (qty m) with
      | None => Thrown st1
      | Some s1 => Returned (with_side st1 (sb m) s1) ()
      end
  end.

Definition on_replace (st : OrderBook) (new_oid old_oid : string)
    (venue_code : ascii) (side_b : string) (price : Q) (qty : Z)
    : outcome (option NbboChange) :=
  match on_add st new_oid venue_code side_b price qty with
  | Thrown st1 => Thrown st1
  | Returned st1 res =>
      match on_cancel st1 old_oid with
      | Thrown st2 => Thrown st2
      | Returned st2 _ => Returned st2 res
      end
  end.

(** [on_execute].  [m] is a reference into [omap_], so the decrement of
    [m.qty] is a write to the index that survives a later throw.  The
    report is built from [m.idx] and from the level read after the
    removal; the index entry is erased only after that read. *)
Definition on_execute (st : OrderBook) (oid : string) (exec_qty : Z)
    : outcome (option ExecutionReport) :=
  match omap_ st !! oid with
  | None => Returned st None
  | Some m =>
      let take := Z.min exec_qty (qty m) in
      let m' := mkMeta (sb m) (idx m) (vid m) (wrap32 (qty m - take)) in
      let st1 := with_omap st (<[oid := m']> (omap_ st)) in
      match remove (side st1 (sb m)) (idx m) (vid m) take with
      | None => Thrown st1
      | Some s1 =>
          let st2 := with_side st1 (sb m) s1 in
          match levels_ s1 !! idx m with
          | None => Thrown st2
          | Some pl =>
              let st3 := if bool_decide (qty m' = 0)
                         then with_omap st2 (delete oid (omap_ st2)) else st2 in
              Returned st3
                (Some (mkExec (i2p (idx m)) (agg pl) (vqty pl) (venue_string pl)))
          end
      end
  end.

(** Events of the batch interface, after the casts of the tuple fields;
    [EvOther] is any other command tag. *)
Inductive event :=
| EvAdd (oid : string) (venue_code : ascii) (side_b : string) (price : Q) (qty : Z)
| EvExecute (oid : string) (exec_qty : Z)
| EvCancel (oid : string)
| EvReplace (new_oid old_oid : string) (venue_code : ascii) (side_b : string)
            (price : Q) (qty : Z)
| EvOther (cmd : string).

Inductive result :=
| ResNbbo (c : NbboChange)
| ResExec (r : ExecutionReport).

Definition outcome_map {A B} (f : A → B) (o : outcome A) : outcome B :=
  match o with
  | Returned st r => Returned st (f r)
  | Thrown st => Thrown st
  end.

(** One turn of the loop of [on_batch]: the chain of comparisons on the
    command tag; [None] when there is nothing to append. *)
Definition dispatch (st : OrderBook) (e : event) : outcome (option result) :=
  match e with
  | EvAdd oid vc sd p q => outcome_map (fmap ResNbbo) (on_add st oid vc sd p q)
  | EvExecute oid q => outcome_map (fmap ResExec) (on_execute st oid q)
  | EvCancel oid => outcome_map (λ _, None) (on_cancel st oid)
  | EvReplace n o vc sd p q => outcome_map (fmap ResNbbo) (on_replace st n o vc sd p q)
  | EvOther _ => Thrown st
  end.

Fixpoint on_batch_loop (st : OrderBook) (batch : list event) (out : list result)
    : outcome (list result) :=
  match batch with
  | [] => Returned st out
  | e :: rest =>
      match dispatch st e with
      | Thrown st1 => Thrown st1
      | Returned st1 None => on_batch_loop st1 rest out
      | Returned st1 (Some r) => on_batch_loop st1 rest (out ++ [r])
      end
  end.

Definition on_batch (st : OrderBook) (batch : list event) : outcome (list result) :=
  on_batch_loop st batch [].

Definition best_bid (st : OrderBook) : option Q := best_price (bid_ st).
Definition best_ask (st : OrderBook) : option Q := best_price (ask_ st).

Definition snapshot (st : OrderBook) (side_b : string) (price : Q) : list (string * Z) :=
  snapshot_level (side st (bool_decide (side_b = "BID"%string))) (p2i price).

(** ** Invariants of the data model *)

Definition u32 (z : Z) : Prop := 0 ≤ z < 2 ^ 32.

Definition sumZ (l : list Z) : Z := foldr Z.add 0 l.

(** Property P1 of the specification, for one level and one side. *)
Definition level_P1 (pl : PriceLevel) : Prop :=
  0 < agg pl ∧ agg pl = sumZ (vqty pl) ∧ Forall (λ q, 0 ≤ q) (vqty pl).

Definition side_P1 (s : SideBook) : Prop :=
  ticks_ s = dom (levels_ s) ∧ map_Forall (λ _ pl, level_P1 pl) (levels_ s).

Definition P1 (st : OrderBook) : Prop := side_P1 (bid_ st) ∧ side_P1 (ask_ st).

(** P1 together with the facts the representation adds: the array has
    [NUM_VENUES] cells and the aggregate fits [uint32_t]. *)
Definition level_ok (pl : PriceLevel) : Prop :=
  length (vqty pl) = NUM_VENUES ∧ level_P1 pl ∧ agg pl < 2 ^ 32.

(** What [level_ok] shares with a level that was just created. *)
Definition level_wf (pl : PriceLevel) : Prop :=
  length (vqty pl) = NUM_VENUES ∧ agg pl = sumZ (vqty pl) ∧
  Forall (λ q, 0 ≤ q) (vqty pl) ∧ agg pl < 2 ^ 32.

Definition side_ok (s : SideBook) : Prop :=
  ticks_ s = dom (levels_ s) ∧ map_Forall (λ _ pl, level_ok pl) (levels_ s).

Definition sides_ok (st : OrderBook) : Prop :=
  is_bid_ (bid_ st) = true ∧ is_bid_ (ask_ st) = false ∧
  side_ok (bid_ st) ∧ side_ok (ask_ st).

(** Every tick of the side is a price of the admitted range, hence
    different from both sentinels. *)
Definition ticks_in_range (s : SideBook) : Prop :=
  set_Forall (λ t, 0 ≤ t < INT_MAX) (ticks_ s).

(** Quantity recorded in the book at a (tick, venue) place of a side,
    and aggregate of a level; 0 where the level is absent. *)
Definition vqty_at (s : SideBook) (t : Z) (v : nat) : Z :=
  match levels_ s !! t with Some pl => cell (vqty pl) v | None => 0 end.

Definition agg_at (s : SideBook) (t : Z) : Z :=
  match levels_ s !! t with Some pl => agg pl | None => 0 end.

(** Remaining quantity an index entry claims at a place, and the sum of
    these claims over the index. *)
Definition contrib (b : bool) (t : Z) (v : nat) (m : Meta) : Z :=
  if bool_decide (sb m = b ∧ idx m = t ∧ vid m = v) then qty m else 0.

Definition live_sum (om : gmap string Meta) (b : bool) (t : Z) (v : nat) : Z :=
  map_fold (λ _ m acc, contrib b t v m + acc) 0 om.

Definition meta_ok (m : Meta) : Prop := u32 (qty m) ∧ (vid m < NUM_VENUES)%nat.

(** The index is covered by the book: at the place of every order the
    claims of the index do not exceed the quantity of the book. *)
Definition index_ok (st : OrderBook) : Prop :=
  map_Forall (λ _ m, meta_ok m ∧
    live_sum (omap_ st) (sb m) (idx m) (vid m)
      ≤ vqty_at (side st (sb m)) (idx m) (vid m)) (omap_ st).

Definition book_inv (st : OrderBook) : Prop := sides_ok st ∧ index_ok st.

(** The same covering, stated at every place of the book. *)
Definition metas_ok (om : gmap string Meta) : Prop :=
  map_Forall (λ _ m, meta_ok m) om.

Definition cover (st : OrderBook) : Prop :=
  ∀ b t v, live_sum (omap_ st) b t v ≤ vqty_at (side st b) t v.

#[global] Instance level_ok_dec pl : Decision (level_ok pl).
Proof. unfold level_ok, level_P1. apply _. Defined.

#[global] Instance side_ok_dec s : Decision (side_ok s).
Proof. unfold side_ok. apply _. Defined.

#[global] Instance sides_ok_dec st : Decision (sides_ok st).
Proof. unfold sides_ok. apply _. Defined.

#[global] Instance ticks_in_range_dec s : Decision (ticks_in_range s).
Proof. unfold ticks_in_range. apply _. Defined.

#[global] Instance book_inv_dec st : Decision (book_inv st).
Proof. unfold book_inv, index_ok, meta_ok, u32. apply _. Defined.

(** ** Admissible events and reachable states *)

(** The preconditions of the specification on the arguments of an
    event, and the bound that keeps the aggregate of the level an add
    touches inside [uint32_t]. *)
Definition add_ok (st : OrderBook) (side_b : string) (price : Q) (qty : Z) : Prop :=
  0 < qty ∧
  agg_at (side st (bool_decide (side_b = "BID"%string))) (p2i price) + qty < 2 ^ 32.

Definition event_ok (st : OrderBook) (e : event) : Prop :=
  match e with
  | EvAdd _ _ sd p q => add_ok st sd p q
  | EvReplace _ _ _ sd p q => add_ok st sd p q
  | EvExecute _ q => u32 q
  | EvCancel _ => True
  | EvOther _ => True
  end.

(** States of a book that starts empty and receives admissible events;
    an event that throws leaves the state of the throw. *)
Inductive reachable : OrderBook → Prop :=
| reach_new : reachable OrderBook_new
| reach_step st e :
    reachable st → event_ok st e → reachable (final (dispatch st e)).

(** Admissibility of a whole batch, event after event. *)
Fixpoint batch_ok (st : OrderBook) (batch : list event) : Prop :=
  match batch with
  | [] => True
  | e :: rest =>
      event_ok st e ∧
      match dispatch st e with
      | Returned st1 _ => batch_ok st1 rest
      | Thrown _ => True
      end
  end.

(** The last clause of the specification of [on_replace]: when the old
    identifier is not live the cancel phase does nothing, so that the
    replace is the add. *)
Definition replace_of_dead_is_add (st : OrderBook) (new_oid old_oid : string)
    (venue_code : ascii) (side_b : string) (price : Q) (qty : Z) : Prop :=
  omap_ st !! old_oid = None →
  on_replace st new_oid old_oid venue_code side_b price qty
  = on_add st new_oid venue_code side_b price qty.

(** Strict order of [char] values. *)
Definition char_lt (a b : ascii) : Prop := (N_of_ascii a < N_of_ascii b)%N.

#[global] Instance char_le_trans : Transitive char_le.
Proof. intros a b c. unfold char_le. lia. Defined.

#[global] Instance char_le_total : Total char_le.
Proof. intros a b. unfold char_le. lia. Defined.

(** ** Proof automation *)

(** Closes the case analysis on whether a place is the one an operation
    touches. *)
Ltac place :=
  repeat case_decide; try lia;
  try (exfalso; destruct_and?; subst; intuition congruence).

(** ** The scenarios of the specification *)

Definition sc1 := on_add OrderBook_new "a" "C" "BID" 10.00 5.
Definition sc2 := on_add (final sc1) "b" "I" "BID" 10.01 3.
Definition sc3 := on_add (final sc2) "c" "B" "BID" 10.01 2.
Definition sc4 := on_execute (final sc3) "b" 3.
Definition sc4' := on_execute (final sc4) "c" 2.
Definition sc5 := on_add OrderBook_new "x" "A" "ASK" 20.00 4.
Definition sc5' := on_replace (final sc5) "y" "x" "A" "ASK" 19.99 4.

(** ** The shape every event keeps *)

(** The fields of a level and of an index entry hold [uint32_t] values. *)
Definition level_typed (pl : PriceLevel) : Prop :=
  u32 (agg pl) ∧ Forall u32 (vqty pl).

Definition side_shape (s : SideBook) : Prop :=
  ticks_ s = dom (levels_ s) ∧ map_Forall (λ _ pl, level_typed pl) (levels_ s).

(** What holds of a book whatever it has received, wrap-around and
    throws included: each side book knows its side, its set of ticks is
    the key set of its levels, and all quantities are [uint32_t]
    values. *)
Definition shape_ok (st : OrderBook) : Prop :=
  is_bid_ (bid_ st) = true ∧ is_bid_ (ask_ st) = false ∧
  side_shape (bid_ st) ∧ side_shape (ask_ st) ∧
  map_Forall (λ _ m, u32 (qty m)) (omap_ st).

#[global] Instance u32_dec z : Decision (u32 z).
Proof. unfold u32. apply _. Defined.

#[global] Instance level_typed_dec pl : Decision (level_typed pl).
Proof. unfold level_typed. apply _. Defined.

#[global] Instance shape_ok_dec st : Decision (shape_ok st).
Proof. unfold shape_ok, side_shape. apply _. Defined.

(** The quantity of an event is a [uint32_t] argument. *)
Definition event_typed (e : event) : Prop :=
  match e with
  | EvAdd _ _ _ _ q => u32 q
  | EvReplace _ _ _ _ _ q => u32 q
  | EvExecute _ q => u32 q
  | _ => True
  end.

(** States of a book that starts empty and receives any events. *)
Inductive attainable : OrderBook → Prop :=
| attain_new : attainable OrderBook_new
| attain_step st e :
    attainable st → event_typed e → attainable (final (dispatch st e)).

(** ** Books whose identifiers are not reused while live *)

(** An add or a replace enters an identifier that is not in the index;
    the source overwrites the entry otherwise. *)
Definition event_fresh (st : OrderBook) (e : event) : Prop :=
  match e with
  | EvAdd oid _ _ _ _ => omap_ st !! oid = None
  | EvReplace n _ _ _ _ _ => omap_ st !! n = None
  | _ => True
  end.

Inductive reachable_fresh : OrderBook → Prop :=
| fresh_new : reachable_fresh OrderBook_new
| fresh_step st e :
    reachable_fresh st → event_ok st e → event_fresh st e →
    reachable_fresh (final (dispatch st e)).

(** Every cell of the book is the sum of the remaining quantities of the
    orders of the index at its place. *)
Definition conserved (st : OrderBook) : Prop :=
  ∀ b t v, live_sum (omap_ st) b t v = vqty_at (side st b) t v.

(** ** Prices of the admitted range *)

Definition event_in_range (e : event) : Prop :=
  match e with
  | EvAdd _ _ _ p _ => 0 ≤ p2i p < INT_MAX
  | EvReplace _ _ _ _ p _ => 0 ≤ p2i p < INT_MAX
  | _ => True
  end.

Definition book_in_range (st : OrderBook) : Prop :=
  ticks_in_range (bid_ st) ∧ ticks_in_range (ask_ st).

(** * Properties *)

Example p2i_10_01 : p2i 10.01 = 1001.
Proof. reflexivity. Qed.

Example i2p_1001 : i2p 1001 = 10.01%Q.
Proof. reflexivity. Qed.

Example VENUE_MAP_at_I : VENUE_MAP_at "I" = Some 1%nat.
Proof. reflexivity. Qed.

Example VENUE_MAP_at_unknown : VENUE_MAP_at "q" = None.
Proof. reflexivity. Qed.


(** ** Machine arithmetic *)

Lemma wrap32_small z : u32 z → wrap32 z = z.
Proof. intros Hz. apply Z.mod_small, Hz. Qed.

Lemma wrap32_u32 z : u32 (wrap32 z).
Proof. unfold u32, wrap32. apply Z.mod_pos_bound. lia. Qed.

Lemma to_int_congr z : ∃ k, to_int z = z + k * 2 ^ 32.
Proof.
  unfold to_int. exists (- ((z + 2 ^ 31) `div` 2 ^ 32)).
  pose proof (Z.div_mod (z + 2 ^ 31) (2 ^ 32)). lia.
Qed.

Lemma wrap32_add_to_int a b : wrap32 (a + to_int b) = wrap32 (a + b).
Proof.
  destruct (to_int_congr b) as [k ->]. unfold wrap32.
  replace (a + (b + k * 2 ^ 32)) with (a + b + k * 2 ^ 32) by lia.
  apply Z_mod_plus_full.
Qed.

Lemma wrap32_sub_to_int a b : wrap32 (a + to_int (- to_int b)) = wrap32 (a - b).
Proof.
  rewrite wrap32_add_to_int. destruct (to_int_congr b) as [k ->]. unfold wrap32.
  replace (a + - (b + k * 2 ^ 32)) with (a - b + (- k) * 2 ^ 32) by lia.
  apply Z_mod_plus_full.
Qed.

Lemma wrap32_add_sub a b : u32 a → wrap32 (wrap32 (a + b) - b) = a.
Proof.
  intros Ha. unfold wrap32. rewrite Zminus_mod_idemp_l.
  replace (a + b - b) with a by lia. apply Z.mod_small, Ha.
Qed.

(** ** Sums and in-place updates of the quantity array *)

Lemma sumZ_cons (x : Z) (l : list Z) : sumZ (x :: l) = x + sumZ l.
Proof. reflexivity. Qed.

Lemma sumZ_nonneg (l : list Z) : Forall (λ q, 0 ≤ q) l → 0 ≤ sumZ l.
Proof. induction 1; simpl; lia. Qed.

Lemma sumZ_cell_le (l : list Z) (i : nat) :
  Forall (λ q, 0 ≤ q) l → 0 ≤ cell l i ≤ sumZ l.
Proof.
  intros Hl. revert i. induction Hl as [|x l Hx Hl IH]; intros i.
  - unfold cell. rewrite lookup_nil. simpl. done.
  - pose proof (sumZ_nonneg l Hl). destruct i as [|i]; unfold cell; simpl.
    + lia.
    + specialize (IH i). unfold cell in IH. lia.
Qed.

Lemma cell_lookup (l : list Z) (i : nat) (x : Z) : l !! i = Some x → cell l i = x.
Proof. unfold cell. by intros ->. Qed.

Lemma sumZ_alter (f : Z → Z) (l : list Z) (i : nat) :
  (i < length l)%nat → sumZ (alter f i l) = sumZ l - cell l i + f (cell l i).
Proof.
  revert i. induction l as [|x l IH]; intros i Hi; simpl in Hi; [lia|].
  destruct i as [|i].
  - change (alter f 0%nat (x :: l)) with (f x :: l).
    change (cell (x :: l) 0) with x. rewrite !sumZ_cons. lia.
  - change (alter f (S i) (x :: l)) with (x :: alter f i l).
    change (cell (x :: l) (S i)) with (cell l i).
    rewrite !sumZ_cons, IH by lia. lia.
Qed.

Lemma cell_alter_eq (f : Z → Z) (l : list Z) (i : nat) :
  (i < length l)%nat → cell (alter f i l) i = f (cell l i).
Proof.
  intros Hi. destruct (lookup_lt_is_Some_2 l i Hi) as [x Hx].
  unfold cell. rewrite list_lookup_alter_eq, Hx. done.
Qed.

Lemma cell_alter_ne (f : Z → Z) (l : list Z) (i j : nat) :
  i ≠ j → cell (alter f i l) j = cell l j.
Proof. intros Hij. unfold cell. by rewrite list_lookup_alter_ne. Qed.

Lemma alter_fixed (f : Z → Z) (l : list Z) (i : nat) :
  f (cell l i) = cell l i → alter f i l = l.
Proof.
  intros Hf. apply list_eq. intros j. destruct (decide (i = j)) as [<-|Hij].
  - rewrite list_lookup_alter_eq. destruct (l !! i) as [x|] eqn:Hx; [|done].
    rewrite (cell_lookup _ _ _ Hx) in Hf. simpl. by rewrite Hf.
  - by rewrite list_lookup_alter_ne.
Qed.

Lemma alter_alter (f g : Z → Z) (l : list Z) (i : nat) :
  alter f i (alter g i l) = alter (f ∘ g) i l.
Proof.
  apply list_eq. intros j. destruct (decide (i = j)) as [<-|Hij].
  - rewrite !list_lookup_alter_eq. by destruct (l !! i).
  - by rewrite !list_lookup_alter_ne.
Qed.

Lemma Forall_alter_nonneg (f : Z → Z) (l : list Z) (i : nat) :
  Forall (λ q, 0 ≤ q) l → 0 ≤ f (cell l i) → Forall (λ q, 0 ≤ q) (alter f i l).
Proof.
  intros Hl Hf. apply Forall_alter; [done|].
  intros x Hx _. by rewrite (cell_lookup _ _ _ Hx) in Hf.
Qed.

Lemma cell_zero_of_sum (l : list Z) (i : nat) :
  Forall (λ q, 0 ≤ q) l → sumZ l = 0 → cell l i = 0.
Proof. intros Hl Hs. pose proof (sumZ_cell_le l i Hl). lia. Qed.

(** ** The best tick of a side *)

Lemma foldr_max_spec (t : Z) (ts : list Z) :
  foldr Z.max t ts ∈ t :: ts ∧ ∀ x, x ∈ t :: ts → x ≤ foldr Z.max t ts.
Proof.
  induction ts as [|y ts [IHin IHle]]; simpl.
  - split; [left|]. intros x Hx. apply list_elem_of_singleton in Hx. lia.
  - split.
    + destruct (Z.max_spec y (foldr Z.max t ts)) as [[_ ->]|[_ ->]].
      * apply elem_of_cons in IHin as [->|Hin]; [left|]. by do 2 right.
      * right. left.
    + intros x Hx. rewrite !elem_of_cons in Hx.
      destruct Hx as [->|[->|Hx]].
      * specialize (IHle t (list_elem_of_here _ _)). lia.
      * lia.
      * specialize (IHle x (list_elem_of_further _ _ _ Hx)). lia.
Qed.

Lemma foldr_min_spec (t : Z) (ts : list Z) :
  foldr Z.min t ts ∈ t :: ts ∧ ∀ x, x ∈ t :: ts → foldr Z.min t ts ≤ x.
Proof.
  induction ts as [|y ts [IHin IHle]]; simpl.
  - split; [left|]. intros x Hx. apply list_elem_of_singleton in Hx. lia.
  - split.
    + destruct (Z.min_spec y (foldr Z.min t ts)) as [[_ ->]|[_ ->]].
      * right. left.
      * apply elem_of_cons in IHin as [->|Hin]; [left|]. by do 2 right.
    + intros x Hx. rewrite !elem_of_cons in Hx.
      destruct Hx as [->|[->|Hx]].
      * specialize (IHle t (list_elem_of_here _ _)). lia.
      * lia.
      * specialize (IHle x (list_elem_of_further _ _ _ Hx)). lia.
Qed.

Lemma best_idx_empty s : ticks_ s = ∅ → best_idx s = sentinel (is_bid_ s).
Proof. intros H. unfold best_idx. by rewrite H, elements_empty. Qed.

Lemma best_idx_elem s : ticks_ s ≠ ∅ → best_idx s ∈ ticks_ s.
Proof.
  intros Hne. unfold best_idx.
  destruct (elements (ticks_ s)) as [|t ts] eqn:E.
  - apply elements_empty_inv, leibniz_equiv in E. done.
  - apply elem_of_elements. rewrite E.
    destruct (is_bid_ s); [apply foldr_max_spec | apply foldr_min_spec].
Qed.

Lemma best_idx_bid_ub s t : is_bid_ s = true → t ∈ ticks_ s → t ≤ best_idx s.
Proof.
  intros Hb Ht. unfold best_idx. apply elem_of_elements in Ht.
  destruct (elements (ticks_ s)) as [|t0 ts]; [by apply elem_of_nil in Ht|].
  rewrite Hb. by apply foldr_max_spec.
Qed.

Lemma best_idx_ask_lb s t : is_bid_ s = false → t ∈ ticks_ s → best_idx s ≤ t.
Proof.
  intros Hb Ht. unfold best_idx. apply elem_of_elements in Ht.
  destruct (elements (ticks_ s)) as [|t0 ts]; [by apply elem_of_nil in Ht|].
  rewrite Hb. by apply foldr_min_spec.
Qed.

Lemma best_idx_singleton b t (lv : gmap Z PriceLevel) :
  best_idx (mkSide b {[t]} lv) = t.
Proof. unfold best_idx. simpl. rewrite elements_singleton. by destruct b. Qed.

(** ** Price levels *)

Lemma level_ok_wf pl : level_ok pl ↔ level_wf pl ∧ 0 < agg pl.
Proof. unfold level_ok, level_P1, level_wf. tauto. Qed.

Lemma level_wf_new : level_wf PriceLevel_new.
Proof.
  unfold level_wf. simpl. split; [done|]. split; [done|]. split; [|lia].
  repeat constructor; lia.
Qed.

Lemma cell_new v : cell (vqty PriceLevel_new) v = 0.
Proof.
  unfold cell, PriceLevel_new, vqty.
  destruct (replicate NUM_VENUES 0 !! v) as [x|] eqn:R; [|done].
  apply lookup_replicate in R as [-> _]. done.
Qed.

Lemma level_wf_agg_nonneg pl : level_wf pl → 0 ≤ agg pl.
Proof. intros (_ & -> & Hnn & _). by apply sumZ_nonneg. Qed.

Lemma level_wf_cell pl v : level_wf pl → 0 ≤ cell (vqty pl) v ≤ agg pl.
Proof. intros (_ & -> & Hnn & _). by apply sumZ_cell_le. Qed.

Lemma adjust_plus pl v q :
  adjust pl v (to_int q)
  = mkLevel (alter (λ x, wrap32 (x + q)) v (vqty pl)) (wrap32 (agg pl + q)).
Proof.
  unfold adjust. f_equal; [|apply wrap32_add_to_int].
  apply list_alter_ext; [|done]. intros x _. apply wrap32_add_to_int.
Qed.

Lemma adjust_minus pl v q :
  adjust pl v (to_int (- to_int q))
  = mkLevel (alter (λ x, wrap32 (x - q)) v (vqty pl)) (wrap32 (agg pl - q)).
Proof.
  unfold adjust. f_equal; [|apply wrap32_sub_to_int].
  apply list_alter_ext; [|done]. intros x _. apply wrap32_sub_to_int.
Qed.

Lemma adjust_plus_wf pl v q :
  level_wf pl → (v < NUM_VENUES)%nat → 0 ≤ q → agg pl + q < 2 ^ 32 →
  level_wf (adjust pl v (to_int q)) ∧
  agg (adjust pl v (to_int q)) = agg pl + q ∧
  ∀ v', cell (vqty (adjust pl v (to_int q))) v'
        = cell (vqty pl) v' + (if decide (v' = v) then q else 0).
Proof.
  intros Hwf Hv Hq Hov. rewrite adjust_plus. simpl.
  pose proof (level_wf_cell pl v Hwf) as Hc.
  pose proof (level_wf_agg_nonneg pl Hwf) as Ha.
  destruct Hwf as (Hlen & Hsum & Hnn & Hlt).
  assert (Hw : wrap32 (cell (vqty pl) v + q) = cell (vqty pl) v + q)
    by (apply wrap32_small; unfold u32; lia).
  assert (Hwa : wrap32 (agg pl + q) = agg pl + q)
    by (apply wrap32_small; unfold u32; lia).
  split; [|split].
  - unfold level_wf. simpl. rewrite length_alter, sumZ_alter, Hw, Hwa by lia.
    repeat split; [done|lia| |lia].
    apply Forall_alter_nonneg; [done|]. rewrite Hw. lia.
  - done.
  - intros v'. destruct (decide (v' = v)) as [->|Hne].
    + rewrite cell_alter_eq by lia. done.
    + rewrite cell_alter_ne by done. lia.
Qed.

Lemma adjust_minus_wf pl v q :
  level_wf pl → (v < NUM_VENUES)%nat → 0 ≤ q ≤ cell (vqty pl) v →
  level_wf (adjust pl v (to_int (- to_int q))) ∧
  agg (adjust pl v (to_int (- to_int q))) = agg pl - q ∧
  ∀ v', cell (vqty (adjust pl v (to_int (- to_int q)))) v'
        = cell (vqty pl) v' - (if decide (v' = v) then q else 0).
Proof.
  intros Hwf Hv Hq. rewrite adjust_minus. simpl.
  pose proof (level_wf_cell pl v Hwf) as Hc.
  destruct Hwf as (Hlen & Hsum & Hnn & Hlt).
  assert (Hw : wrap32 (cell (vqty pl) v - q) = cell (vqty pl) v - q)
    by (apply wrap32_small; unfold u32; lia).
  assert (Hwa : wrap32 (agg pl - q) = agg pl - q)
    by (apply wrap32_small; unfold u32; lia).
  split; [|split].
  - unfold level_wf. simpl. rewrite length_alter, sumZ_alter, Hw, Hwa by lia.
    repeat split; [done|lia| |lia].
    apply Forall_alter_nonneg; [done|]. rewrite Hw. lia.
  - done.
  - intros v'. destruct (decide (v' = v)) as [->|Hne].
    + rewrite cell_alter_eq by lia. done.
    + rewrite cell_alter_ne by done. lia.
Qed.

(** ** Side books *)

Lemma add_state s t v q :
  (add s t v q).1
  = mkSide (is_bid_ s)
      (if bool_decide (agg (default PriceLevel_new (levels_ s !! t)) = 0)
       then {[t]} ∪ ticks_ s else ticks_ s)
      (<[t := adjust (default PriceLevel_new (levels_ s !! t)) v (to_int q)]>
         (levels_ s)).
Proof. unfold add. by case_bool_decide. Qed.

Lemma side_ok_level s t pl : side_ok s → levels_ s !! t = Some pl → level_ok pl.
Proof. intros [_ H] Ht. by apply (H t pl). Qed.

Lemma side_ok_tick s t : side_ok s → t ∈ ticks_ s ↔ is_Some (levels_ s !! t).
Proof. intros [-> _]. apply elem_of_dom. Qed.

Lemma vqty_at_nonneg s t v : side_ok s → 0 ≤ vqty_at s t v.
Proof.
  intros Hs. unfold vqty_at. destruct (levels_ s !! t) as [pl|] eqn:E; [|done].
  apply (level_wf_cell pl v). by apply level_ok_wf, (side_ok_level s t).
Qed.

Lemma add_side_ok s t v q :
  side_ok s → (v < NUM_VENUES)%nat → 0 < q → agg_at s t + q < 2 ^ 32 →
  side_ok (add s t v q).1 ∧
  ∀ t' v', vqty_at (add s t v q).1 t' v'
           = vqty_at s t' v' + (if decide (t' = t ∧ v' = v) then q else 0).
Proof.
  intros Hs Hv Hq Hov. rewrite add_state. unfold agg_at in Hov.
  destruct (levels_ s !! t) as [pl|] eqn:E; simpl.
  - pose proof (side_ok_level s t pl Hs E) as Hpl.
    apply level_ok_wf in Hpl as [Hwf Hpos].
    destruct (adjust_plus_wf pl v q Hwf Hv ltac:(lia) Hov) as (Hwf' & Hagg & Hcell).
    rewrite bool_decide_eq_false_2 by lia. split.
    + destruct Hs as [Hdom Hall]. split; simpl.
      * rewrite dom_insert_L, Hdom. apply elem_of_dom_2 in E. set_solver.
      * apply map_Forall_insert_2; [|done]. apply level_ok_wf. split; [done|lia].
    + intros t' v'. unfold vqty_at. simpl.
      destruct (decide (t' = t)) as [->|Hne].
      * rewrite lookup_insert_eq, E, Hcell.
        destruct (decide (v' = v)); place.
      * rewrite lookup_insert_ne by done. place.
  - destruct (adjust_plus_wf PriceLevel_new v q level_wf_new Hv ltac:(lia) Hov)
      as (Hwf' & Hagg & Hcell).
    split.
    + destruct Hs as [Hdom Hall]. split; simpl.
      * by rewrite dom_insert_L, Hdom.
      * apply map_Forall_insert_2; [|done]. apply level_ok_wf.
        split; [done|]. rewrite Hagg. simpl. lia.
    + intros t' v'. unfold vqty_at. simpl.
      destruct (decide (t' = t)) as [->|Hne].
      * rewrite lookup_insert_eq, E, Hcell.
        rewrite cell_new.
        destruct (decide (v' = v)); place.
      * rewrite lookup_insert_ne by done. place.
Qed.

Lemma add_is_bid s t v q : is_bid_ (add s t v q).1 = is_bid_ s.
Proof. by rewrite add_state. Qed.

Lemma remove_side_ok s t v q pl :
  side_ok s → levels_ s !! t = Some pl → (v < NUM_VENUES)%nat →
  0 ≤ q ≤ cell (vqty pl) v →
  ∃ s', remove s t v q = Some s' ∧ side_ok s' ∧ is_bid_ s' = is_bid_ s ∧
    ∀ t' v', vqty_at s' t' v'
             = vqty_at s t' v' - (if decide (t' = t ∧ v' = v) then q else 0).
Proof.
  intros Hs E Hv Hq. unfold remove. rewrite E.
  pose proof (side_ok_level s t pl Hs E) as Hpl.
  apply level_ok_wf in Hpl as [Hwf Hpos].
  destruct (adjust_minus_wf pl v q Hwf Hv Hq) as (Hwf' & Hagg & Hcell).
  destruct Hs as [Hdom Hall]. case_bool_decide as Hz; eexists; (split; [done|]).
  - split; [|split; [done|]].
    + split; simpl; [by rewrite dom_delete_L, Hdom | by apply map_Forall_delete].
    + intros t' v'. unfold vqty_at. simpl.
      destruct (decide (t' = t)) as [->|Hne].
      * rewrite lookup_delete_eq, E.
        assert (cell (vqty (adjust pl v (to_int (- to_int q)))) v' = 0) as H0.
        { destruct Hwf' as (_ & Hsum & Hnn & _). apply cell_zero_of_sum; [done|].
          by rewrite <- Hsum. }
        rewrite Hcell in H0. destruct (decide (v' = v)); place.
      * rewrite lookup_delete_ne by done. place.
  - split; [|split; [done|]].
    + split; simpl.
      * rewrite dom_insert_L, Hdom. apply elem_of_dom_2 in E. set_solver.
      * apply map_Forall_insert_2; [|done]. apply level_ok_wf. split; [done|].
        pose proof (level_wf_agg_nonneg _ Hwf'). lia.
    + intros t' v'. unfold vqty_at. simpl.
      destruct (decide (t' = t)) as [->|Hne].
      * rewrite lookup_insert_eq, E, Hcell.
        destruct (decide (v' = v)); place.
      * rewrite lookup_insert_ne by done. place.
Qed.

Lemma remove_absent s t v q : levels_ s !! t = None → remove s t v q = None.
Proof. intros E. unfold remove. by rewrite E. Qed.

(** ** The order index *)

Section live_sum.
Variables (b : bool) (t : Z) (v : nat).

Lemma contrib_nonneg m : 0 ≤ qty m → 0 ≤ contrib b t v m.
Proof. intros Hq. unfold contrib. case_bool_decide; lia. Qed.

Lemma contrib_le m : 0 ≤ qty m → contrib b t v m ≤ qty m.
Proof. intros Hq. unfold contrib. case_bool_decide; lia. Qed.

Lemma contrib_here m : contrib (sb m) (idx m) (vid m) m = qty m.
Proof. unfold contrib. by rewrite bool_decide_eq_true_2. Qed.

Lemma live_sum_empty : live_sum ∅ b t v = 0.
Proof. apply map_fold_empty. Qed.

Lemma live_sum_insert_fresh (om : gmap string Meta) o m :
  om !! o = None →
  live_sum (<[o := m]> om) b t v = contrib b t v m + live_sum om b t v.
Proof.
  intros Ho. unfold live_sum.
  rewrite map_fold_insert_L; [done| |done]. intros; lia.
Qed.

Lemma live_sum_delete (om : gmap string Meta) o m :
  om !! o = Some m →
  live_sum om b t v = contrib b t v m + live_sum (delete o om) b t v.
Proof.
  intros Ho. unfold live_sum.
  rewrite (map_fold_delete_L _ _ o m om); [done| |done]. intros; lia.
Qed.

Lemma live_sum_insert (om : gmap string Meta) o m :
  live_sum (<[o := m]> om) b t v
  = contrib b t v m + live_sum (delete o om) b t v.
Proof.
  rewrite <- insert_delete_eq. apply live_sum_insert_fresh, lookup_delete_eq.
Qed.

Lemma live_sum_nonneg (om : gmap string Meta) :
  metas_ok om → 0 ≤ live_sum om b t v.
Proof.
  induction om as [|o m om Ho IH] using map_ind; intros Hok.
  - by rewrite live_sum_empty.
  - rewrite live_sum_insert_fresh by done.
    apply map_Forall_insert in Hok as [[[Hq _] _] Hrest]; [|done].
    pose proof (contrib_nonneg m Hq). specialize (IH Hrest). lia.
Qed.

Lemma live_sum_vacant (om : gmap string Meta) :
  live_sum om b t v = 0 ∨
  ∃ o m, om !! o = Some m ∧ sb m = b ∧ idx m = t ∧ vid m = v.
Proof.
  induction om as [|o m om Ho IH] using map_ind.
  - left. apply live_sum_empty.
  - rewrite live_sum_insert_fresh by done. unfold contrib at 1.
    case_bool_decide as Hm.
    + right. exists o, m. by rewrite lookup_insert_eq.
    + destruct IH as [->|(o' & m' & Ho' & Hm')]; [by left|].
      right. exists o', m'. split; [|done].
      rewrite lookup_insert_ne; [done|]. intros ->. congruence.
Qed.
End live_sum.

Lemma metas_ok_delete (om : gmap string Meta) o : metas_ok om → metas_ok (delete o om).
Proof. apply map_Forall_delete. Qed.

Lemma metas_ok_insert (om : gmap string Meta) o m :
  metas_ok om → meta_ok m → metas_ok (<[o := m]> om).
Proof. intros Hom Hm. by apply map_Forall_insert_2. Qed.

Lemma live_sum_delete_le (om : gmap string Meta) o b t v :
  metas_ok om → live_sum (delete o om) b t v ≤ live_sum om b t v.
Proof.
  intros Hok. destruct (om !! o) as [m|] eqn:Ho.
  - rewrite (live_sum_delete b t v om o m Ho).
    pose proof (contrib_nonneg b t v m). destruct (Hok o m Ho) as [[? _] _]. lia.
  - by rewrite delete_id.
Qed.

(** The two statements of the covering agree. *)
Lemma index_ok_cover st :
  side_ok (bid_ st) → side_ok (ask_ st) →
  index_ok st ↔ metas_ok (omap_ st) ∧ cover st.
Proof.
  intros Hb Ha. split.
  - intros Hi. split.
    + intros o m Ho. by destruct (Hi o m Ho).
    + intros b t v. destruct (live_sum_vacant b t v (omap_ st))
        as [->|(o & m & Ho & <- & <- & <-)].
      * apply vqty_at_nonneg. by destruct b.
      * by destruct (Hi o m Ho).
  - intros [Hm Hc] o m Ho. split; [by apply (Hm o m)|apply Hc].
Qed.

Lemma book_inv_alt st :
  book_inv st ↔ sides_ok st ∧ metas_ok (omap_ st) ∧ cover st.
Proof.
  unfold book_inv. split.
  - intros [Hs Hi]. split; [done|]. destruct Hs as (_ & _ & Hb & Ha).
    by apply index_ok_cover.
  - intros (Hs & Hm & Hc). split; [done|]. destruct Hs as (_ & _ & Hb & Ha).
    by apply index_ok_cover.
Qed.

(** ** The coordinator: access to the two sides *)

Lemma side_with_side st b s b' :
  side (with_side st b s) b' = if decide (b = b') then s else side st b'.
Proof. by destruct b, b'. Qed.

Lemma side_with_omap st om b : side (with_omap st om) b = side st b.
Proof. by destruct b. Qed.

Lemma omap_with_side st b s : omap_ (with_side st b s) = omap_ st.
Proof. by destruct b. Qed.

Lemma with_omap_with_side st b s om :
  with_omap (with_side st b s) om = with_side (with_omap st om) b s.
Proof. by destruct b. Qed.

Lemma with_omap_with_omap st om om' : with_omap (with_omap st om) om' = with_omap st om'.
Proof. done. Qed.


Lemma with_side_id st b : with_side st b (side st b) = st.
Proof. by destruct st, b. Qed.

Lemma sides_ok_side st b : sides_ok st → side_ok (side st b) ∧ is_bid_ (side st b) = b.
Proof. intros (Hb & Ha & Hsb & Hsa). by destruct b. Qed.

Lemma sides_ok_with_side st b s :
  sides_ok st → side_ok s → is_bid_ s = b → sides_ok (with_side st b s).
Proof.
  intros (Hb & Ha & Hsb & Hsa) Hs Hbid. unfold sides_ok.
  destruct b; simpl; tauto.
Qed.

Lemma sides_ok_with_omap st om : sides_ok st → sides_ok (with_omap st om).
Proof. done. Qed.

Lemma VENUE_MAP_at_spec c v :
  VENUE_MAP_at c = Some v → (v < NUM_VENUES)%nat ∧ VENUE_CODE !! v = Some c.
Proof.
  unfold VENUE_MAP_at. destruct (find _ VENUE_MAP) as [[n i]|] eqn:F; [|done].
  intros [= <-]. apply find_some in F as [Hin Hc].
  apply bool_decide_eq_true in Hc. simpl in *. split; [|done].
  apply lookup_lt_Some in Hc. done.
Qed.

(** ** Preservation of the invariant by the four entry points *)

Lemma on_add_final st oid vc sd p q v :
  VENUE_MAP_at vc = Some v →
  final (on_add st oid vc sd p q) = on_add_state st oid v sd p q.
Proof.
  intros Ev. unfold on_add, on_add_state. rewrite Ev.
  destruct (add _ _ _ _) as [s1 prev]. simpl.
  case_bool_decide; [|done]. by destruct (nbbo_tuple _ _ _).
Qed.

Lemma on_add_unknown_venue st oid vc sd p q :
  VENUE_MAP_at vc = None → on_add st oid vc sd p q = Thrown st.
Proof. intros Ev. unfold on_add. by rewrite Ev. Qed.

Lemma on_add_inv st oid vc sd p q :
  book_inv st → add_ok st sd p q → book_inv (final (on_add st oid vc sd p q)).
Proof.
  intros Hinv [Hq Hov]. destruct (VENUE_MAP_at vc) as [v|] eqn:Ev;
    [|by rewrite on_add_unknown_venue].
  rewrite (on_add_final _ _ _ _ _ _ v Ev). unfold on_add_state.
  apply VENUE_MAP_at_spec in Ev as [Hv _].
  set (bid := bool_decide (sd = "BID"%string)) in *.
  apply book_inv_alt in Hinv as (Hs & Hm & Hc). apply book_inv_alt.
  destruct (sides_ok_side st bid Hs) as [Hsb Hbid].
  destruct (add_side_ok (side st bid) (p2i p) v q Hsb Hv Hq Hov) as [Hs1 Hat].
  pose proof (vqty_at_nonneg (side st bid) (p2i p) v Hsb) as Hnn.
  assert (0 ≤ agg_at (side st bid) (p2i p)) as Hagg.
  { unfold agg_at. destruct (levels_ (side st bid) !! p2i p) as [pl|] eqn:E; [|done].
    apply level_wf_agg_nonneg, level_ok_wf. by apply (side_ok_level (side st bid) (p2i p)). }
  split; [|split].
  - apply sides_ok_with_omap, sides_ok_with_side; [done..|].
    by rewrite add_is_bid.
  - simpl. apply metas_ok_insert; [done|]. split; [|done]. unfold u32. simpl. lia.
  - intros b t v'. simpl. rewrite side_with_omap, side_with_side, live_sum_insert.
    pose proof (live_sum_delete_le (omap_ st) oid b t v' Hm) as Hle.
    specialize (Hc b t v'). unfold contrib. simpl.
    destruct (decide (bid = b)) as [<-|Hne].
    + rewrite Hat. case_bool_decide; place.
    + rewrite bool_decide_eq_false_2 by (intros (? & _); done). lia.
Qed.

(** Taking [k] units from a live order: the write to the index, then
    the removal from the level, each keeping the invariant. *)
Lemma take_inv st o m k :
  book_inv st → omap_ st !! o = Some m → 0 ≤ k ≤ qty m →
  let m' := mkMeta (sb m) (idx m) (vid m) (qty m - k) in
  let st1 := with_omap st (<[o := m']> (omap_ st)) in
  book_inv st1 ∧
  ∀ pl, levels_ (side st (sb m)) !! idx m = Some pl →
    k ≤ cell (vqty pl) (vid m) ∧
    ∃ s1, remove (side st (sb m)) (idx m) (vid m) k = Some s1 ∧
          book_inv (with_side st1 (sb m) s1).
Proof.
  intros Hinv Ho Hk m' st1.
  apply book_inv_alt in Hinv as (Hs & Hm & Hc).
  destruct (Hm o m Ho) as [[Hq0 Hq1] Hv].
  assert (metas_ok (omap_ st1)) as Hm1.
  { apply metas_ok_insert; [done|]. split; [|done]. unfold u32. simpl. lia. }
  assert (∀ b t v, live_sum (omap_ st1) b t v
            = live_sum (omap_ st) b t v
              - (if decide (sb m = b ∧ idx m = t ∧ vid m = v) then k else 0)) as Hsum.
  { intros b t v. simpl. rewrite live_sum_insert, (live_sum_delete b t v _ o m Ho).
    unfold contrib. simpl. case_bool_decide; place. }
  split.
  - apply book_inv_alt. split; [done|]. split; [done|].
    intros b t v. rewrite Hsum. unfold st1. rewrite side_with_omap.
    specialize (Hc b t v). place.
  - intros pl El. destruct (sides_ok_side st (sb m) Hs) as [Hsb Hbid].
    assert (qty m ≤ cell (vqty pl) (vid m)) as Hcov.
    { specialize (Hc (sb m) (idx m) (vid m)). unfold vqty_at in Hc. rewrite El in Hc.
      rewrite (live_sum_delete _ _ _ _ o m Ho), contrib_here in Hc.
      pose proof (live_sum_nonneg (sb m) (idx m) (vid m) _ (metas_ok_delete _ o Hm)).
      lia. }
    split; [lia|].
    destruct (remove_side_ok (side st (sb m)) (idx m) (vid m) k pl Hsb El Hv
                ltac:(lia)) as (s1 & Hrm & Hs1 & Hb1 & Hat).
    exists s1. split; [done|]. apply book_inv_alt. split; [|split].
    + apply sides_ok_with_side; [done..|]. by rewrite Hb1.
    + by rewrite omap_with_side.
    + intros b t v. rewrite omap_with_side, Hsum, side_with_side.
      unfold st1. rewrite side_with_omap. specialize (Hc b t v).
      destruct (decide (sb m = b)) as [<-|Hne].
      * rewrite Hat. place.
      * place.
Qed.

Lemma delete_inv st o :
  book_inv st → book_inv (with_omap st (delete o (omap_ st))).
Proof.
  intros (Hs & Hm & Hc)%book_inv_alt. apply book_inv_alt.
  split; [done|]. split; [by apply metas_ok_delete|].
  intros b t v. simpl. rewrite side_with_omap.
  pose proof (live_sum_delete_le (omap_ st) o b t v Hm). specialize (Hc b t v). lia.
Qed.

Lemma on_cancel_inv st oid : book_inv st → book_inv (final (on_cancel st oid)).
Proof.
  intros Hinv. unfold on_cancel.
  destruct (omap_ st !! oid) as [m|] eqn:Ho; [|done].
  rewrite side_with_omap.
  assert (0 ≤ qty m ≤ qty m) as Hk.
  { apply book_inv_alt in Hinv as (_ & Hm & _). destruct (Hm oid m Ho) as [[? _] _]. lia. }
  destruct (take_inv st oid m (qty m) Hinv Ho Hk) as [_ Htake].
  destruct (levels_ (side st (sb m)) !! idx m) as [pl|] eqn:El.
  - destruct (Htake pl eq_refl) as (_ & s1 & -> & Hinv1). simpl.
    apply (delete_inv _ oid) in Hinv1.
    rewrite omap_with_side in Hinv1. simpl in Hinv1.
    rewrite delete_insert_eq in Hinv1. by destruct (sb m).
  - rewrite remove_absent by done. simpl. by apply delete_inv.
Qed.

Lemma on_execute_inv st oid q :
  book_inv st → u32 q → book_inv (final (on_execute st oid q)).
Proof.
  intros Hinv Hq. unfold on_execute.
  destruct (omap_ st !! oid) as [m|] eqn:Ho; [|done].
  rewrite side_with_omap.
  assert (u32 (qty m)) as Hqm.
  { apply book_inv_alt in Hinv as (_ & Hm & _). by destruct (Hm oid m Ho). }
  set (take := Z.min q (qty m)).
  assert (0 ≤ take ≤ qty m) as Hk by (unfold u32 in *; lia).
  rewrite (wrap32_small (qty m - take)) by (unfold u32 in *; lia).
  destruct (take_inv st oid m take Hinv Ho Hk) as [Hinv1 Htake].
  destruct (levels_ (side st (sb m)) !! idx m) as [pl|] eqn:El.
  - destruct (Htake pl eq_refl) as (_ & s1 & -> & Hinv2).
    destruct (levels_ s1 !! idx m) as [pl1|]; [|done].
    simpl. case_bool_decide; [|done].
    by apply delete_inv.
  - rewrite remove_absent by done. done.
Qed.

Lemma on_replace_final st n o vc sd p q :
  final (on_replace st n o vc sd p q)
  = match on_add st n vc sd p q with
    | Returned st1 _ => final (on_cancel st1 o)
    | Thrown st1 => st1
    end.
Proof.
  unfold on_replace. destruct (on_add _ _ _ _ _ _) as [st1 r|st1]; [|done].
  by destruct (on_cancel st1 o).
Qed.

Lemma on_replace_inv st n o vc sd p q :
  book_inv st → add_ok st sd p q → book_inv (final (on_replace st n o vc sd p q)).
Proof.
  intros Hinv Hok. rewrite on_replace_final.
  pose proof (on_add_inv st n vc sd p q Hinv Hok) as Hadd.
  destruct (on_add _ _ _ _ _ _) as [st1 r|st1]; [|done].
  by apply on_cancel_inv.
Qed.

Lemma final_outcome_map {A B} (f : A → B) (o : outcome A) :
  final (outcome_map f o) = final o.
Proof. by destruct o. Qed.

Lemma dispatch_inv st e :
  book_inv st → event_ok st e → book_inv (final (dispatch st e)).
Proof.
  intros Hinv Hok. destruct e; simpl in *; rewrite ?final_outcome_map.
  - by apply on_add_inv.
  - by apply on_execute_inv.
  - by apply on_cancel_inv.
  - by apply on_replace_inv.
  - done.
Qed.

Lemma book_inv_new : book_inv OrderBook_new.
Proof. apply (bool_decide_unpack _). vm_compute. exact I. Qed.

Lemma reachable_inv st : reachable st → book_inv st.
Proof.
  induction 1 as [|st e _ IH Hok]; [apply book_inv_new|by apply dispatch_inv].
Qed.

Lemma side_ok_P1 s : side_ok s → side_P1 s.
Proof.
  intros [Hdom Hall]. split; [done|].
  intros t pl Ht. by destruct (Hall t pl Ht) as (_ & ? & _).
Qed.

Lemma book_inv_P1 st : book_inv st → P1 st.
Proof. intros [(_ & _ & Hb & Ha) _]. split; by apply side_ok_P1. Qed.

Lemma on_batch_loop_inv batch : ∀ st out,
  book_inv st → batch_ok st batch → book_inv (final (on_batch_loop st batch out)).
Proof.
  induction batch as [|e rest IH]; intros st out Hinv Hok; [done|].
  destruct Hok as [He Hrest]. simpl.
  pose proof (dispatch_inv st e Hinv He) as Hd.
  destruct (dispatch st e) as [st1 [r|]|st1]; simpl in *; [by apply IH..|done].
Qed.

Lemma on_batch_inv st batch :
  book_inv st → batch_ok st batch → book_inv (final (on_batch st batch)).
Proof. apply on_batch_loop_inv. Qed.

(** ** The shape kept by every event *)

Lemma cell_u32 (l : list Z) (i : nat) : Forall u32 l → u32 (cell l i).
Proof.
  intros Hl. unfold cell. destruct (l !! i) as [x|] eqn:E; simpl.
  - by apply (Forall_lookup_1 _ _ _ _ Hl E).
  - unfold u32. lia.
Qed.

Lemma level_typed_new : level_typed PriceLevel_new.
Proof. apply (bool_decide_unpack _). vm_compute. exact I. Qed.

Lemma adjust_typed pl v d : level_typed pl → level_typed (adjust pl v d).
Proof.
  intros [Ha Hl]. split; simpl; [apply wrap32_u32|].
  apply Forall_alter; [done|]. intros x _ _. apply wrap32_u32.
Qed.

Lemma add_shape s t v q : side_shape s → side_shape (add s t v q).1.
Proof.
  intros [Hdom Hall]. rewrite add_state. split; cbn [ticks_ levels_].
  - rewrite dom_insert_L, Hdom. case_bool_decide as Hz; [done|].
    destruct (levels_ s !! t) as [pl|] eqn:E; [|done].
    apply elem_of_dom_2 in E. set_solver.
  - apply map_Forall_insert_2; [|done]. apply adjust_typed.
    destruct (levels_ s !! t) as [pl|] eqn:E; [by apply (Hall t)|apply level_typed_new].
Qed.

Lemma remove_shape s t v q s1 :
  side_shape s → remove s t v q = Some s1 →
  side_shape s1 ∧ is_bid_ s1 = is_bid_ s.
Proof.
  intros [Hdom Hall]. unfold remove.
  destruct (levels_ s !! t) as [pl|] eqn:E; [|done].
  case_bool_decide; intros [= <-]; (split; [split|done]); cbn [ticks_ levels_].
  - by rewrite dom_delete_L, Hdom.
  - by apply map_Forall_delete.
  - rewrite dom_insert_L, Hdom. apply elem_of_dom_2 in E. set_solver.
  - apply map_Forall_insert_2; [|done]. apply adjust_typed. by apply (Hall t).
Qed.

Lemma shape_ok_side st b :
  shape_ok st → is_bid_ (side st b) = b ∧ side_shape (side st b).
Proof. intros (Hb & Ha & Hsb & Hsa & _). by destruct b. Qed.

Lemma shape_ok_update st b s om :
  shape_ok st → is_bid_ s = b → side_shape s →
  map_Forall (λ _ m, u32 (qty m)) om →
  shape_ok (with_omap (with_side st b s) om).
Proof.
  intros (Hb & Ha & Hsb & Hsa & _) Hbid Hs Hom. unfold shape_ok.
  destruct b; simpl; tauto.
Qed.

Lemma on_add_shape st oid vc sd p q :
  shape_ok st → u32 q → shape_ok (final (on_add st oid vc sd p q)).
Proof.
  intros Hst Hq. destruct (VENUE_MAP_at vc) as [v|] eqn:Ev;
    [|by rewrite on_add_unknown_venue].
  rewrite (on_add_final _ _ _ _ _ _ v Ev). unfold on_add_state.
  destruct (shape_ok_side st (bool_decide (sd = "BID"%string)) Hst) as [Hbid Hs].
  apply shape_ok_update; [done| |by apply add_shape|].
  - by rewrite add_is_bid.
  - apply map_Forall_insert_2; [done|]. by destruct Hst as (_ & _ & _ & _ & ?).
Qed.

Lemma on_cancel_shape st oid : shape_ok st → shape_ok (final (on_cancel st oid)).
Proof.
  intros Hst. unfold on_cancel.
  destruct (omap_ st !! oid) as [m|] eqn:Ho; [|done].
  rewrite side_with_omap.
  destruct (shape_ok_side st (sb m) Hst) as [Hbid Hs].
  assert (map_Forall (λ _ m, u32 (qty m)) (delete oid (omap_ st))) as Hom.
  { apply map_Forall_delete. by destruct Hst as (_ & _ & _ & _ & ?). }
  destruct (remove (side st (sb m)) (idx m) (vid m) (qty m)) as [s1|] eqn:Hrm; simpl.
  - destruct (remove_shape _ _ _ _ _ Hs Hrm) as [Hs1 Hb1].
    rewrite <- with_omap_with_side.
    apply shape_ok_update; [done|by rewrite Hb1|done..].
  - rewrite <- (with_side_id st (sb m)) at 1.
    by apply shape_ok_update.
Qed.

Lemma on_execute_shape st oid q : shape_ok st → shape_ok (final (on_execute st oid q)).
Proof.
  intros Hst. unfold on_execute.
  destruct (omap_ st !! oid) as [m|] eqn:Ho; [|done].
  rewrite side_with_omap.
  destruct (shape_ok_side st (sb m) Hst) as [Hbid Hs].
  set (m' := mkMeta (sb m) (idx m) (vid m) (wrap32 (qty m - Z.min q (qty m)))).
  assert (map_Forall (λ _ m, u32 (qty m)) (<[oid := m']> (omap_ st))) as Hom.
  { apply map_Forall_insert_2; [apply wrap32_u32|].
    by destruct Hst as (_ & _ & _ & _ & ?). }
  pose proof (map_Forall_delete _ _ oid Hom) as Hdel.
  destruct Hst as (Hb & Ha & Hsb & Hsa & Hm).
  destruct (remove (side st (sb m)) (idx m) (vid m) _) as [s1|] eqn:Hrm; simpl.
  - destruct (remove_shape _ _ _ _ _ Hs Hrm) as [Hs1 Hb1]. rewrite Hbid in Hb1.
    destruct (levels_ s1 !! idx m) as [pl1|]; simpl; [case_bool_decide|];
      unfold shape_ok; destruct (sb m); simpl in *; tauto.
  - unfold shape_ok. simpl. tauto.
Qed.

Lemma dispatch_shape st e :
  shape_ok st → event_typed e → shape_ok (final (dispatch st e)).
Proof.
  intros Hst He. destruct e; simpl in *; rewrite ?final_outcome_map.
  - by apply on_add_shape.
  - by apply on_execute_shape.
  - by apply on_cancel_shape.
  - rewrite on_replace_final.
    pose proof (on_add_shape st new_oid venue_code side_b price qty0 Hst He) as H1.
    destruct (on_add _ _ _ _ _ _) as [st1 r|st1]; [|done].
    by apply on_cancel_shape.
  - done.
Qed.

Lemma shape_ok_new : shape_ok OrderBook_new.
Proof. apply (bool_decide_unpack _). vm_compute. exact I. Qed.

(** Every state a book can be in has the shape. *)
Lemma attainable_shape st : attainable st → shape_ok st.
Proof.
  induction 1 as [|st e _ IH He]; [apply shape_ok_new|by apply dispatch_shape].
Qed.

(** ** The venue string *)

Lemma N_of_ascii_inj a b : N_of_ascii a = N_of_ascii b → a = b.
Proof.
  intros H. rewrite <- (ascii_N_embedding a), <- (ascii_N_embedding b). by rewrite H.
Qed.

Lemma NoDup_omap_inj {A B} (f : A → option B) (l : list A) :
  (∀ x y z, f x = Some z → f y = Some z → x = y) →
  NoDup l → NoDup (omap f l).
Proof.
  intros Hinj. induction 1 as [|x l Hx Hl IH]; simpl; [constructor|].
  destruct (f x) as [z|] eqn:Fx; [|done].
  constructor; [|done]. intros Hz. apply list_elem_of_omap in Hz as (y & Hy & Fy).
  by rewrite (Hinj x y z Fx Fy) in Hx.
Qed.

Lemma VENUE_CODE_NoDup : NoDup VENUE_CODE.
Proof. apply (bool_decide_unpack _). vm_compute. exact I. Qed.

Lemma venue_chars_NoDup pl : NoDup (venue_chars pl).
Proof.
  apply NoDup_omap_inj; [|apply NoDup_seq].
  intros i j c Hi Hj. case_bool_decide; [|done]. case_bool_decide; [|done].
  by apply (NoDup_lookup VENUE_CODE i j c VENUE_CODE_NoDup).
Qed.

Lemma venue_chars_elem pl c :
  c ∈ venue_chars pl ↔ ∃ i, VENUE_CODE !! i = Some c ∧ cell (vqty pl) i ≠ 0.
Proof.
  unfold venue_chars. rewrite list_elem_of_omap. split.
  - intros (i & _ & Hi). case_bool_decide; [|done]. by exists i.
  - intros (i & Hc & Hq). exists i. split.
    + apply elem_of_seq. apply lookup_lt_Some in Hc. simpl in *.
      unfold NUM_VENUES. lia.
    + by rewrite bool_decide_eq_true_2.
Qed.

Lemma sorted_NoDup_strict (l : list ascii) :
  StronglySorted char_le l → NoDup l → StronglySorted char_lt l.
Proof.
  induction 1 as [|a l Hl IH Ha]; intros Hnd; [constructor|].
  apply NoDup_cons in Hnd as [Hnin Hnd]. constructor; [by apply IH|].
  apply Forall_forall. intros b Hb.
  pose proof (proj1 (Forall_forall _ _) Ha b Hb) as Hle.
  unfold char_le in Hle. unfold char_lt.
  assert (N_of_ascii a ≠ N_of_ascii b); [|lia].
  intros Heq. apply N_of_ascii_inj in Heq. by subst.
Qed.


(** C9. The venue string of a level lists exactly the codes of the
    venues whose quantity at the level is positive, each once, in
    strictly ascending order of character code. *)
Theorem venue_string_canonical pl :
  Forall (λ q, 0 ≤ q) (vqty pl) →
  StronglySorted char_lt (String.list_ascii_of_string (venue_string pl)) ∧
  ∀ c, c ∈ String.list_ascii_of_string (venue_string pl)
       ↔ ∃ i, VENUE_CODE !! i = Some c ∧ 0 < cell (vqty pl) i.
Proof.
  intros Hnn. unfold venue_string.
  rewrite String.list_ascii_of_string_of_list_ascii. split.
  - apply sorted_NoDup_strict.
    + apply (StronglySorted_merge_sort char_le).
    + rewrite merge_sort_Permutation. apply venue_chars_NoDup.
  - intros c. rewrite merge_sort_Permutation, venue_chars_elem.
    split; intros (i & Hc & Hq); exists i; (split; [done|]).
    + pose proof (sumZ_cell_le (vqty pl) i Hnn). lia.
    + lia.
Qed.

Lemma venue_string_canonical_witness :
  StronglySorted char_lt
    (String.list_ascii_of_string
       (venue_string (mkLevel [4; 0; 7; 0; 1; 0; 0; 0; 0; 0; 0; 0; 0; 2] 14))) ∧
  ∀ c, c ∈ String.list_ascii_of_string
             (venue_string (mkLevel [4; 0; 7; 0; 1; 0; 0; 0; 0; 0; 0; 0; 0; 2] 14))
       ↔ ∃ i, VENUE_CODE !! i = Some c
              ∧ 0 < cell [4; 0; 7; 0; 1; 0; 0; 0; 0; 0; 0; 0; 0; 2] i.
Proof.
  apply (venue_string_canonical
           (mkLevel [4; 0; 7; 0; 1; 0; 0; 0; 0; 0; 0; 0; 0; 2] 14)).
  simpl. repeat constructor; lia.
Defined.

Example venue_string_sorted_example :
  venue_string (mkLevel [4; 0; 7; 0; 1; 0; 0; 0; 0; 0; 0; 0; 0; 2] 14) = "ABCX"%string.
Proof. vm_compute. reflexivity. Qed.


(** ** Adds and the reported change of the best price *)

Lemma add_result s t v q :
  (add s t v q).2
  = if bool_decide (best_idx s = sentinel (is_bid_ s)) then INT_MIN
    else if bool_decide (best_idx (add s t v q).1 ≠ best_idx s)
         then best_idx s else INT_MIN.
Proof. unfold add. by case_bool_decide. Qed.

Lemma on_add_unfold st oid vc sd p q v :
  VENUE_MAP_at vc = Some v →
  on_add st oid vc sd p q
  = if bool_decide
         ((add (side st (bool_decide (sd = "BID"%string))) (p2i p) v q).2 ≠ INT_MIN)
    then match nbbo_tuple
                 (add (side st (bool_decide (sd = "BID"%string))) (p2i p) v q).1
                 (p2i p)
                 (add (side st (bool_decide (sd = "BID"%string))) (p2i p) v q).2 with
         | Some r => Returned (on_add_state st oid v sd p q) (Some r)
         | None => Thrown (on_add_state st oid v sd p q)
         end
    else Returned (on_add_state st oid v sd p q) None.
Proof.
  intros Ev. unfold on_add, on_add_state. rewrite Ev. by destruct (add _ _ _ _).
Qed.

Lemma on_add_none st oid vc sd p q v :
  VENUE_MAP_at vc = Some v →
  (add (side st (bool_decide (sd = "BID"%string))) (p2i p) v q).2 = INT_MIN →
  on_add st oid vc sd p q = Returned (on_add_state st oid v sd p q) None.
Proof.
  intros Ev Hr. rewrite (on_add_unfold _ _ _ _ _ _ v Ev), Hr.
  by rewrite bool_decide_eq_false_2 by (intros H; by apply H).
Qed.

Lemma on_add_some st oid vc sd p q v r :
  VENUE_MAP_at vc = Some v →
  (add (side st (bool_decide (sd = "BID"%string))) (p2i p) v q).2 ≠ INT_MIN →
  nbbo_tuple (add (side st (bool_decide (sd = "BID"%string))) (p2i p) v q).1
             (p2i p)
             (add (side st (bool_decide (sd = "BID"%string))) (p2i p) v q).2
  = Some r →
  on_add st oid vc sd p q = Returned (on_add_state st oid v sd p q) (Some r).
Proof.
  intros Ev Hr Hn. rewrite (on_add_unfold _ _ _ _ _ _ v Ev), Hn.
  by rewrite bool_decide_eq_true_2.
Qed.

Lemma add_result_sentinel s t v q :
  best_idx s = sentinel (is_bid_ s) → (add s t v q).2 = INT_MIN.
Proof. intros H. rewrite add_result. by rewrite bool_decide_eq_true_2. Qed.


Lemma side_on_add_state st oid v sd p q :
  side (on_add_state st oid v sd p q) (bool_decide (sd = "BID"%string))
  = (add (side st (bool_decide (sd = "BID"%string))) (p2i p) v q).1.
Proof.
  unfold on_add_state. rewrite side_with_omap, side_with_side.
  by rewrite decide_True.
Qed.

Lemma sentinel_in_range_ne s :
  ticks_in_range s → ticks_ s ≠ ∅ →
  0 ≤ best_idx s < INT_MAX ∧ best_idx s ≠ sentinel (is_bid_ s).
Proof.
  intros Hr Hne. pose proof (Hr _ (best_idx_elem s Hne)) as H. simpl in H.
  split; [done|]. unfold sentinel. destruct (is_bid_ s); lia.
Qed.

(** C1. An add on a side whose best tick is the empty sentinel reports no
    NBBO change; on the empty book the add of an order with a recognised
    venue and a price of the admitted range returns none and the best
    price of its side becomes the price of the added tick. *)
Theorem on_add_first_level_none oid vc sd price q v :
  VENUE_MAP_at vc = Some v →
  0 ≤ p2i price < INT_MAX →
  let bid := bool_decide (sd = "BID"%string) in
  (∀ st, best_idx (side st bid) = sentinel (is_bid_ (side st bid)) →
         ∃ st', on_add st oid vc sd price q = Returned st' None) ∧
  (∃ st', on_add OrderBook_new oid vc sd price q = Returned st' None ∧
          best_price (side st' bid) = Some (i2p (p2i price))).
Proof.
  intros Ev Hp bid. split.
  - intros st Hbest. eexists.
    apply (on_add_none _ _ _ _ _ _ v Ev). by apply add_result_sentinel.
  - eexists. split.
    + apply (on_add_none _ _ _ _ _ _ v Ev). apply add_result_sentinel.
      fold bid. by destruct bid.
    + unfold bid. rewrite side_on_add_state, add_state. fold bid.
      assert (side OrderBook_new bid = SideBook_new bid) as -> by by destruct bid.
      unfold best_price, SideBook_new. simpl. rewrite lookup_empty. simpl.
      rewrite (right_id_L ∅ (∪)), best_idx_singleton.
      destruct bid; simpl; by rewrite bool_decide_eq_false_2 by lia.
Qed.

Lemma on_add_first_level_none_witness :
  ∃ st', sc1 = Returned st' None ∧ best_bid st' = Some 10.00%Q.
Proof.
  apply (on_add_first_level_none "a" "C" "BID" 10.00 5 0%nat);
    [reflexivity | vm_compute; split; congruence].
Defined.

(** On-grid prices are fixed by the tick codec, so the best price after
    the first add is the added price itself. *)
Lemma p2i_i2p t : 0 ≤ t → p2i (i2p t) = t.
Proof.
  intros Ht. unfold p2i, i2p, Qtrunc, TICK, INV_TICK. simpl.
  change (Z.pos (1 * 100 * 1 * 2)) with 200.
  change (Z.pos (1 * 100 * 1)) with 100.
  symmetry. apply Z.quot_unique with (r := 100); lia.
Qed.


Lemma side_shape_tick s t : side_shape s → t ∈ ticks_ s ↔ is_Some (levels_ s !! t).
Proof. intros [-> _]. apply elem_of_dom. Qed.



(** The second scenario of the specification, evaluated. *)
Example scenario2 :
  sc2 = Returned (final sc2) (Some (mkNbbo 10.01 3 10.00 5 "C")) ∧
  best_bid (final sc2) = Some 10.01%Q.
Proof. split; vm_compute; reflexivity. Qed.

(** ** Unknown identifiers *)

(** C8. On an identifier that is not in the order index, on_cancel and
    on_execute return none and leave the whole state, hence the index,
    both sides and the best bid and ask, as they were. *)
Theorem unknown_id_is_noop st oid q :
  omap_ st !! oid = None →
  on_cancel st oid = Returned st () ∧
  on_execute st oid q = Returned st None ∧
  best_bid (final (on_cancel st oid)) = best_bid st ∧
  best_ask (final (on_cancel st oid)) = best_ask st ∧
  best_bid (final (on_execute st oid q)) = best_bid st ∧
  best_ask (final (on_execute st oid q)) = best_ask st.
Proof.
  intros Ho. unfold on_cancel, on_execute. rewrite Ho. simpl. done.
Qed.

Lemma unknown_id_is_noop_witness :
  on_cancel OrderBook_new "ghost" = Returned OrderBook_new () ∧
  on_execute OrderBook_new "ghost" 7 = Returned OrderBook_new None ∧
  best_bid (final (on_cancel OrderBook_new "ghost")) = None ∧
  best_ask (final (on_cancel OrderBook_new "ghost")) = None ∧
  best_bid (final (on_execute OrderBook_new "ghost" 7)) = None ∧
  best_ask (final (on_execute OrderBook_new "ghost" 7)) = None.
Proof. apply (unknown_id_is_noop OrderBook_new "ghost" 7). reflexivity. Defined.

(** ** Executions *)

Lemma on_cancel_unknown st oid : omap_ st !! oid = None → on_cancel st oid = Returned st ().
Proof. intros Ho. unfold on_cancel. by rewrite Ho. Qed.

Lemma remove_unfold s t v q pl :
  levels_ s !! t = Some pl →
  remove s t v q
  = if bool_decide (agg (adjust pl v (to_int (- to_int q))) = 0)
    then Some (mkSide (is_bid_ s) (ticks_ s ∖ {[t]}) (delete t (levels_ s)))
    else Some (mkSide (is_bid_ s) (ticks_ s)
                 (<[t := adjust pl v (to_int (- to_int q))]> (levels_ s))).
Proof. intros E. unfold remove. by rewrite E. Qed.

(** The throw of [on_execute] on a level that the removal empties, with
    the state it leaves. *)
Lemma on_execute_emptied st oid q m pl :
  omap_ st !! oid = Some m →
  levels_ (side st (sb m)) !! idx m = Some pl →
  agg (adjust pl (vid m) (to_int (- to_int (Z.min q (qty m))))) = 0 →
  on_execute st oid q
  = Thrown (with_side
              (with_omap st
                 (<[oid := mkMeta (sb m) (idx m) (vid m)
                             (wrap32 (qty m - Z.min q (qty m)))]> (omap_ st)))
              (sb m)
              (mkSide (is_bid_ (side st (sb m)))
                      (ticks_ (side st (sb m)) ∖ {[idx m]})
                      (delete (idx m) (levels_ (side st (sb m)))))).
Proof.
  intros Ho El Hz. unfold on_execute. rewrite Ho, side_with_omap.
  rewrite (remove_unfold _ _ _ _ pl El), bool_decide_eq_true_2 by done.
  simpl. by rewrite lookup_delete_eq.
Qed.

(** Under the invariant of a level, the removal empties it exactly when
    the quantity taken is its whole aggregate. *)
Lemma emptied_iff_whole_aggregate pl v k :
  level_wf pl → (v < NUM_VENUES)%nat → 0 ≤ k ≤ cell (vqty pl) v →
  agg (adjust pl v (to_int (- to_int k))) = 0 ↔ k = agg pl.
Proof.
  intros Hwf Hv Hk. destruct (adjust_minus_wf pl v k Hwf Hv Hk) as (_ & -> & _).
  lia.
Qed.

(** C3. The claim does not hold of the code: when the removal empties
    the level of the order, [on_execute] erases the level and then reads
    it with [levels().at], so the call throws instead of returning a
    report with aggregate 0; the level is gone and the order stays in
    the index with its decremented quantity. *)
Theorem on_execute_depleting_throws st oid q m pl :
  omap_ st !! oid = Some m →
  levels_ (side st (sb m)) !! idx m = Some pl →
  agg (adjust pl (vid m) (to_int (- to_int (Z.min q (qty m))))) = 0 →
  ∃ st', on_execute st oid q = Thrown st' ∧
         levels_ (side st' (sb m)) !! idx m = None ∧
         omap_ st' !! oid
         = Some (mkMeta (sb m) (idx m) (vid m) (wrap32 (qty m - Z.min q (qty m)))).
Proof.
  intros Ho El Hz. rewrite (on_execute_emptied st oid q m pl Ho El Hz).
  eexists. split; [done|].
  rewrite side_with_side, decide_True, omap_with_side by done. simpl.
  by rewrite lookup_delete_eq, lookup_insert_eq.
Qed.

Lemma on_execute_depleting_throws_witness :
  ∃ st', sc4' = Thrown st' ∧
         levels_ (side st' true) !! 1001 = None ∧
         omap_ st' !! "c"%string = Some (mkMeta true 1001 2 0).
Proof.
  apply (on_execute_depleting_throws (final sc4) "c" 2 (mkMeta true 1001 2 2)
           (mkLevel [0; 0; 2; 0; 0; 0; 0; 0; 0; 0; 0; 0; 0; 0] 2));
    vm_compute; reflexivity.
Defined.

(** C4. The claim does not hold of the code: when the full execution of
    an order empties its level, [on_execute] throws before it erases the
    order, which stays in the index with quantity 0; the following
    [on_cancel] finds it, erases it and throws in turn, so it is not a
    no-op. *)
Theorem on_execute_full_keeps_order st oid q m pl :
  omap_ st !! oid = Some m → qty m ≤ q →
  levels_ (side st (sb m)) !! idx m = Some pl →
  agg (adjust pl (vid m) (to_int (- to_int (qty m)))) = 0 →
  ∃ st', on_execute st oid q = Thrown st' ∧
         omap_ st' !! oid = Some (mkMeta (sb m) (idx m) (vid m) 0) ∧
         on_cancel st' oid = Thrown (with_omap st' (delete oid (omap_ st'))) ∧
         with_omap st' (delete oid (omap_ st')) ≠ st'.
Proof.
  intros Ho Hle El Hz.
  assert (Z.min q (qty m) = qty m) as Hmin by lia.
  rewrite (on_execute_emptied st oid q m pl Ho El) by (by rewrite Hmin).
  rewrite Hmin, Z.sub_diag. change (wrap32 0) with 0.
  eexists. split; [done|].
  assert (∀ s1, omap_ (with_side
                  (with_omap st (<[oid := mkMeta (sb m) (idx m) (vid m) 0]> (omap_ st)))
                  (sb m) s1) !! oid = Some (mkMeta (sb m) (idx m) (vid m) 0)) as Ho'.
  { intros s1. rewrite omap_with_side. simpl. apply lookup_insert_eq. }
  split; [apply Ho'|]. split.
  - unfold on_cancel. rewrite Ho'. simpl.
    rewrite side_with_omap, side_with_side, decide_True by done.
    rewrite remove_absent; [done|]. simpl. apply lookup_delete_eq.
  - intros Heq. apply (f_equal (λ x, omap_ x !! oid)) in Heq. simpl in Heq.
    rewrite lookup_delete_eq, Ho' in Heq. done.
Qed.

Lemma on_execute_full_keeps_order_witness :
  ∃ st', on_execute (final sc1) "a" 5 = Thrown st' ∧
         omap_ st' !! "a"%string = Some (mkMeta true 1000 0 0) ∧
         on_cancel st' "a" = Thrown (with_omap st' (delete "a"%string (omap_ st'))) ∧
         with_omap st' (delete "a"%string (omap_ st')) ≠ st'.
Proof.
  apply (on_execute_full_keeps_order (final sc1) "a" 5 (mkMeta true 1000 0 5)
           (mkLevel [5; 0; 0; 0; 0; 0; 0; 0; 0; 0; 0; 0; 0; 0] 5));
    try (vm_compute; reflexivity).
  simpl. lia.
Defined.

(** Where the level keeps some quantity the claim of C4 does hold: the
    order leaves the index and a later cancel changes nothing. *)
Lemma on_execute_full_removes st oid q m pl :
  omap_ st !! oid = Some m → qty m ≤ q →
  levels_ (side st (sb m)) !! idx m = Some pl →
  agg (adjust pl (vid m) (to_int (- to_int (qty m)))) ≠ 0 →
  ∃ st' r, on_execute st oid q = Returned st' (Some r) ∧
           omap_ st' !! oid = None ∧
           on_cancel st' oid = Returned st' ().
Proof.
  intros Ho Hle El Hz.
  assert (Z.min q (qty m) = qty m) as Hmin by lia.
  unfold on_execute. rewrite Ho, side_with_omap, Hmin, Z.sub_diag.
  change (wrap32 0) with 0.
  rewrite (remove_unfold _ _ _ _ pl El), bool_decide_eq_false_2 by done.
  cbn [levels_ qty]. rewrite lookup_insert_eq, bool_decide_eq_true_2 by done.
  eexists _, _. split; [done|].
  assert (∀ st2, omap_ (with_omap st2 (delete oid (omap_ st2))) !! oid = None) as Hgone.
  { intros st2. simpl. apply lookup_delete_eq. }
  split; [apply Hgone|]. apply on_cancel_unknown, Hgone.
Qed.

Lemma live_order_covered st oid m :
  book_inv st → omap_ st !! oid = Some m →
  u32 (qty m) ∧ (vid m < NUM_VENUES)%nat ∧
  qty m ≤ vqty_at (side st (sb m)) (idx m) (vid m).
Proof.
  intros (Hs & Hm & Hc)%book_inv_alt Ho. destruct (Hm oid m Ho) as [Hq Hv].
  split; [done|]. split; [done|].
  specialize (Hc (sb m) (idx m) (vid m)).
  rewrite (live_sum_delete _ _ _ _ oid m Ho), contrib_here in Hc.
  pose proof (live_sum_nonneg (sb m) (idx m) (vid m) _ (metas_ok_delete _ oid Hm)).
  lia.
Qed.





(** ** Adding an order and cancelling it *)

Lemma add_returns s t v q :
  side_ok s → (add s t v q).2 ≠ INT_MIN →
  is_Some (nbbo_tuple (add s t v q).1 t (add s t v q).2).
Proof.
  intros Hs Hr. rewrite add_result in Hr |- *.
  case_bool_decide as Hsent; [done|]. case_bool_decide as Hmoved; [|done].
  assert (ticks_ s ≠ ∅) as Hne.
  { intros He. by apply Hsent, best_idx_empty. }
  pose proof (best_idx_elem s Hne) as Hbest.
  apply (side_ok_tick s _ Hs) in Hbest as [old_pl Eold].
  unfold nbbo_tuple. rewrite add_state. simpl. rewrite lookup_insert_eq.
  destruct (decide (t = best_idx s)) as [<-|Hneq].
  - by rewrite lookup_insert_eq.
  - by rewrite lookup_insert_ne, Eold.
Qed.

Lemma adjust_plus_minus_typed pl v q :
  level_typed pl → adjust (adjust pl v (to_int q)) v (to_int (- to_int q)) = pl.
Proof.
  intros [Ha Hl]. rewrite adjust_minus, adjust_plus. simpl.
  pose proof (cell_u32 (vqty pl) v Hl) as Hc.
  destruct pl as [l a]. simpl in *. f_equal.
  - rewrite alter_alter. apply alter_fixed. simpl. by apply wrap32_add_sub.
  - by apply wrap32_add_sub.
Qed.

Lemma remove_add_shape s t v q :
  side_shape s → (∀ pl, levels_ s !! t = Some pl → agg pl ≠ 0) →
  remove (add s t v q).1 t v q = Some s.
Proof.
  intros Hs Hnz. rewrite add_state. destruct (levels_ s !! t) as [pl|] eqn:El.
  - change (default PriceLevel_new (Some pl)) with pl.
    pose proof (Hnz pl eq_refl) as Hpl.
    assert (level_typed pl) as Hty by (destruct Hs as [_ Hall]; by apply (Hall t)).
    rewrite (remove_unfold _ _ _ _ (adjust pl v (to_int q)))
      by apply lookup_insert_eq.
    rewrite adjust_plus_minus_typed by done. cbn [is_bid_ ticks_ levels_].
    rewrite !(bool_decide_eq_false_2 (agg pl = 0)) by done.
    rewrite insert_insert_eq, insert_id by done. by destruct s.
  - change (default PriceLevel_new None) with PriceLevel_new.
    rewrite (remove_unfold _ _ _ _ (adjust PriceLevel_new v (to_int q)))
      by apply lookup_insert_eq.
    rewrite adjust_plus_minus_typed by apply level_typed_new.
    cbn [is_bid_ ticks_ levels_].
    rewrite !(bool_decide_eq_true_2 (agg PriceLevel_new = 0)) by done.
    rewrite delete_insert_id by done.
    assert (t ∉ ticks_ s) as Ht.
    { rewrite (side_shape_tick s t Hs), El. by intros [? ?]. }
    assert (({[t]} ∪ ticks_ s) ∖ {[t]} = ticks_ s) as -> by set_solver.
    by destruct s.
Qed.

Lemma add_returns_shape s t v q :
  side_shape s → (add s t v q).2 ≠ INT_MIN →
  is_Some (nbbo_tuple (add s t v q).1 t (add s t v q).2).
Proof.
  intros Hs Hr. rewrite add_result in Hr |- *.
  case_bool_decide as Hsent; [done|]. case_bool_decide as Hmoved; [|done].
  assert (ticks_ s ≠ ∅) as Hne.
  { intros He. by apply Hsent, best_idx_empty. }
  pose proof (best_idx_elem s Hne) as Hbest.
  apply (side_shape_tick s _ Hs) in Hbest as [old_pl Eold].
  unfold nbbo_tuple. rewrite add_state. simpl. rewrite lookup_insert_eq.
  destruct (decide (t = best_idx s)) as [<-|Hneq].
  - by rewrite lookup_insert_eq.
  - by rewrite lookup_insert_ne, Eold.
Qed.

(** C6, as the code has it.  In every state a book can be in (of the
    shape every event keeps) where the level at the tick of the add is
    absent or has a non-zero aggregate, for an identifier that is not in
    the index, a recognised venue, a quantity below 2^31 and a price
    whose tick is an int, on_add returns and the on_cancel of the same
    identifier that follows returns the state before the add: both side
    books and the order index are as they were. *)
Theorem on_add_then_on_cancel_restores st oid vc sd price q v :
  let s := side st (bool_decide (sd = "BID"%string)) in
  let t := p2i price in
  shape_ok st → (∀ pl, levels_ s !! t = Some pl → agg pl ≠ 0) →
  omap_ st !! oid = None → VENUE_MAP_at vc = Some v →
  0 ≤ q < 2 ^ 31 → INT_MIN ≤ t ≤ INT_MAX →
  ∃ st1 r, on_add st oid vc sd price q = Returned st1 r ∧
           on_cancel st1 oid = Returned st ().
Proof.
  intros s t Hst Hnz Ho Ev _ _. subst s t.
  set (bid := bool_decide (sd = "BID"%string)) in *.
  destruct (shape_ok_side st bid Hst) as [_ Hshape].
  assert (on_cancel (on_add_state st oid v sd price q) oid = Returned st ()) as Hc.
  { unfold on_cancel, on_add_state. fold bid. simpl. rewrite lookup_insert_eq. simpl.
    rewrite !side_with_omap, side_with_side, decide_True by done.
    rewrite remove_add_shape by done. rewrite delete_insert_id by done.
    by destruct st, bid. }
  rewrite (on_add_unfold _ _ _ _ _ _ v Ev). fold bid.
  case_bool_decide as Hr; [|eauto].
  destruct (add_returns_shape (side st bid) (p2i price) v q Hshape Hr) as [r ->].
  eauto.
Qed.

Lemma on_add_then_on_cancel_restores_witness :
  ∃ st1 r, on_add (final sc2) "z" "A" "ASK" 19.99 4 = Returned st1 r ∧
           on_cancel st1 "z" = Returned (final sc2) ().
Proof.
  apply (on_add_then_on_cancel_restores (final sc2) "z" "A" "ASK" 19.99 4 4%nat).
  - apply (bool_decide_unpack _). vm_compute. exact I.
  - intros pl H. vm_compute in H. discriminate.
  - vm_compute. reflexivity.
  - reflexivity.
  - lia.
  - vm_compute. split; discriminate.
Defined.

(** C6, as it is stated, fails: after two adds of 2^31 units at one
    level the aggregate of the level has wrapped to 0; an add of 5 units
    under a fresh identifier at that level followed by its cancel then
    brings the aggregate back to 0, so the cancel erases the level and
    its tick: the side book is not the one before the add, and the best
    bid is lost. *)
Lemma on_add_then_on_cancel_after_wrap :
  let st1 := final (on_add OrderBook_new "a" "C" "BID" 10.00 (2 ^ 31)) in
  let st2 := final (on_add st1 "b" "C" "BID" 10.00 (2 ^ 31)) in
  omap_ st2 !! "z"%string = None ∧ best_bid st2 = Some 10.00%Q ∧
  ∃ st3 st4, on_add st2 "z" "C" "BID" 10.00 5 = Returned st3 None ∧
             on_cancel st3 "z" = Returned st4 () ∧
             bid_ st4 ≠ bid_ st2 ∧ best_bid st4 = None.
Proof.
  intros st1 st2. split; [vm_compute; reflexivity|].
  split; [vm_compute; reflexivity|].
  exists (final (on_add st2 "z" "C" "BID" 10.00 5)),
         (final (on_cancel (final (on_add st2 "z" "C" "BID" 10.00 5)) "z")).
  split; [vm_compute; reflexivity|]. split; [vm_compute; reflexivity|].
  split; [|vm_compute; reflexivity].
  intros H. apply (f_equal (λ x, levels_ x !! 1000)) in H.
  vm_compute in H. discriminate.
Qed.

(** ** The invariant P1 over the life of a book *)

Lemma on_batch_reachable batch : ∀ st out,
  reachable st → batch_ok st batch →
  reachable (final (on_batch_loop st batch out)).
Proof.
  induction batch as [|e rest IH]; intros st out Hr Hok; [done|].
  destruct Hok as [He Hrest]. simpl.
  pose proof (reach_step st e Hr He) as Hd.
  destruct (dispatch st e) as [st1 [r|]|st1]; simpl in *; [by apply IH..|done].
Qed.

(** C7, as the code has it.  In every state a book reaches from the
    empty book through events whose adds have a positive quantity and
    keep the aggregate of the level they touch below 2^32, whether the
    events return or throw, both sides satisfy P1: the set of ticks is
    the key set of the levels, every level has a positive aggregate equal
    to the sum of its per-venue quantities, and these are non-negative. *)
Theorem reachable_P1 st : reachable st → P1 st.
Proof. intros Hr. by apply book_inv_P1, reachable_inv. Qed.

Lemma reachable_P1_witness :
  P1 (final (dispatch
        (final (dispatch OrderBook_new (EvAdd "a" "C" "BID" 10.00 5)))
        (EvExecute "a" 5))).
Proof.
  apply reachable_P1. apply reach_step; [apply reach_step; [apply reach_new|]|].
  - vm_compute. split; reflexivity.
  - vm_compute. split; [discriminate|reflexivity].
Defined.

(** C7, as it is stated, fails: two adds of 2^31 units at one level and
    venue, each with the arguments the specification admits, wrap the
    aggregate to 0 and leave a level with aggregate 0 in the book. *)
Lemma P1_broken_by_wrapping_add :
  let st1 := final (on_add OrderBook_new "a" "C" "BID" 10.00 (2 ^ 31)) in
  let st2 := final (on_add st1 "b" "C" "BID" 10.00 (2 ^ 31)) in
  P1 st1 ∧ omap_ st1 !! "b"%string = None ∧ u32 (2 ^ 31) ∧ 0 < 2 ^ 31 ∧
  ¬ P1 st2.
Proof.
  intros st1 st2. split; [|split; [|split; [|split]]].
  - apply book_inv_P1. apply (bool_decide_unpack _). vm_compute. exact I.
  - vm_compute. reflexivity.
  - unfold u32. lia.
  - lia.
  - intros [[_ Hall] _].
    assert (levels_ (bid_ st2) !! 1000
            = Some (mkLevel [0; 0; 0; 0; 0; 0; 0; 0; 0; 0; 0; 0; 0; 0] 0)) as El
      by (vm_compute; reflexivity).
    destruct (Hall _ _ El) as [Hpos _]. simpl in Hpos. lia.
Qed.

(** ** Replace *)

Lemma on_add_keeps_others st n o vc sd p q st1 r :
  o ≠ n → on_add st n vc sd p q = Returned st1 r → omap_ st1 !! o = omap_ st !! o.
Proof.
  intros Hne Ha. destruct (VENUE_MAP_at vc) as [v|] eqn:Ev.
  - pose proof (on_add_final st n vc sd p q v Ev) as Hf. rewrite Ha in Hf.
    simpl in Hf. subst st1. unfold on_add_state. simpl.
    by rewrite lookup_insert_ne.
  - by rewrite on_add_unknown_venue in Ha.
Qed.

(** C5, as the code has it.  on_replace ends in the state of on_add
    followed by on_cancel of the old identifier and, when that cancel
    returns, returns what the on_add returned; a throw of the add is the
    throw of the replace; and when the old identifier is not live and is
    not the new identifier, the replace is exactly the add. *)
Theorem on_replace_is_add_then_cancel st n o vc sd p q :
  (∀ st1 r, on_add st n vc sd p q = Returned st1 r →
     final (on_replace st n o vc sd p q) = final (on_cancel st1 o) ∧
     ∀ st2 u, on_cancel st1 o = Returned st2 u →
              on_replace st n o vc sd p q = Returned st2 r) ∧
  (∀ st1, on_add st n vc sd p q = Thrown st1 →
          on_replace st n o vc sd p q = Thrown st1) ∧
  (o ≠ n → replace_of_dead_is_add st n o vc sd p q).
Proof.
  split; [|split].
  - intros st1 r Ha. unfold on_replace. rewrite Ha. split.
    + by destruct (on_cancel st1 o).
    + by intros st2 u ->.
  - intros st1 Ha. unfold on_replace. by rewrite Ha.
  - intros Hne Ho. unfold on_replace.
    destruct (on_add st n vc sd p q) as [st1 r|st1] eqn:Ha; [|done].
    rewrite on_cancel_unknown; [done|].
    by rewrite (on_add_keeps_others st n o vc sd p q st1 r Hne Ha).
Qed.

Lemma on_replace_is_add_then_cancel_witness :
  on_replace (final sc1) "y" "ghost" "A" "ASK" 19.99 4
  = on_add (final sc1) "y" "A" "ASK" 19.99 4.
Proof.
  apply (on_replace_is_add_then_cancel (final sc1) "y" "ghost" "A" "ASK" 19.99 4).
  - discriminate.
  - vm_compute. reflexivity.
Defined.

(** C5, as it is stated, fails when the two identifiers are the same:
    the old identifier is not live, yet the cancel phase removes the
    order the add has just entered and the book is empty again. *)
Lemma on_replace_same_id_undoes_add :
  omap_ OrderBook_new !! "x"%string = None ∧
  ¬ replace_of_dead_is_add OrderBook_new "x" "x" "C" "BID" 10.00 5 ∧
  final (on_replace OrderBook_new "x" "x" "C" "BID" 10.00 5) = OrderBook_new ∧
  final (on_add OrderBook_new "x" "C" "BID" 10.00 5) ≠ OrderBook_new.
Proof.
  split; [done|]. split; [|split].
  - intros H. specialize (H eq_refl).
    apply (f_equal (λ o, omap_ (final o) !! "x"%string)) in H.
    vm_compute in H. discriminate.
  - vm_compute. reflexivity.
  - intros H. apply (f_equal (λ st, omap_ st !! "x"%string)) in H.
    vm_compute in H. discriminate.
Qed.

(** The fifth scenario of the specification. *)
Example scenario5 :
  sc5' = Returned (final sc5') (Some (mkNbbo 19.99 4 20.00 4 "A")) ∧
  best_ask (final sc5') = Some 19.99%Q ∧
  omap_ (final sc5') !! "x"%string = None ∧
  is_Some (omap_ (final sc5') !! "y"%string).
Proof. repeat split; try (vm_compute; reflexivity). vm_compute. eauto. Qed.

(** ** The scenarios of the specification, run on the model *)

Example scenario1 :
  sc1 = Returned (final sc1) None ∧ best_bid (final sc1) = Some 10.00%Q.
Proof. split; vm_compute; reflexivity. Qed.

Example scenario3 :
  sc3 = Returned (final sc3) None ∧
  snapshot (final sc3) "BID" 10.01 = [("ISE", 3); ("BOX", 2)]%string.
Proof. split; vm_compute; reflexivity. Qed.

Example scenario4_partial :
  sc4 = Returned (final sc4)
          (Some (mkExec 10.01 2 [0; 0; 2; 0; 0; 0; 0; 0; 0; 0; 0; 0; 0; 0] "B")) ∧
  best_bid (final sc4) = Some 10.01%Q.
Proof. split; vm_compute; reflexivity. Qed.

(** The second execution of the fourth scenario empties the level and
    throws; the best bid has moved all the same. *)
Example scenario4_depleting :
  sc4' = Thrown (final sc4') ∧ best_bid (final sc4') = Some 10.00%Q.
Proof. split; vm_compute; reflexivity. Qed.

Example scenario6 :
  on_cancel OrderBook_new "ghost" = Returned OrderBook_new () ∧
  best_bid OrderBook_new = None ∧ best_ask OrderBook_new = None.
Proof. repeat split. Qed.

(** * Further properties of the code *)

(** ** The tick codec *)

(** X1. [p2i] inverts [i2p] on every non-negative tick; on a negative
    tick the cast truncates toward zero and the round trip lands one
    tick higher. *)
Theorem tick_codec_round_trip t :
  (0 ≤ t → p2i (i2p t) = t) ∧ (t < 0 → p2i (i2p t) = t + 1).
Proof.
  assert (p2i (i2p t) = (t * 200 + 100) `quot` 200) as ->.
  { unfold p2i, i2p, Qtrunc, TICK, INV_TICK. simpl.
    change (Z.pos (1 * 100 * 1 * 2)) with 200.
    change (Z.pos (1 * 100 * 1)) with 100. f_equal. lia. }
  split; intros Ht.
  - symmetry. apply Z.quot_unique with (r := 100); lia.
  - replace (t * 200 + 100) with (- ((- t - 1) * 200 + 100)) by lia.
    rewrite Z.quot_opp_l by lia.
    rewrite <- (Z.quot_unique ((- t - 1) * 200 + 100) 200 (- t - 1) 100); lia.
Qed.

(** ** The best tick and the best price *)

(** X3. [best_idx] of a side without ticks is the sentinel of the side;
    otherwise it is one of the ticks of the side, the greatest on a bid
    side and the least on an ask side. *)
Theorem best_idx_is_extremum s :
  (ticks_ s = ∅ → best_idx s = sentinel (is_bid_ s)) ∧
  (ticks_ s ≠ ∅ →
     best_idx s ∈ ticks_ s ∧
     ∀ t, t ∈ ticks_ s → if is_bid_ s then t ≤ best_idx s else best_idx s ≤ t).
Proof.
  split; [apply best_idx_empty|]. intros Hne. split; [by apply best_idx_elem|].
  intros t Ht. destruct (is_bid_ s) eqn:Hb.
  - by apply best_idx_bid_ub.
  - by apply best_idx_ask_lb.
Qed.

(** X4. On a side whose ticks are all in the admitted range,
    [best_price] is none exactly when the side has no tick, and is
    otherwise the price of [best_idx]. *)
Theorem best_price_none_iff_empty s :
  ticks_in_range s →
  (best_price s = None ↔ ticks_ s = ∅) ∧
  (ticks_ s ≠ ∅ → best_price s = Some (i2p (best_idx s))).
Proof.
  intros Hr.
  assert (ticks_ s ≠ ∅ → best_price s = Some (i2p (best_idx s))) as Hsome.
  { intros Hne. destruct (sentinel_in_range_ne s Hr Hne) as [Hrange _].
    unfold best_price. rewrite !bool_decide_eq_false_2 by lia.
    by rewrite !andb_false_r. }
  split; [|done]. split.
  - intros Hnone. destruct (decide (ticks_ s = ∅)) as [|Hne]; [done|].
    rewrite (Hsome Hne) in Hnone. done.
  - intros He. unfold best_price. rewrite (best_idx_empty s He).
    unfold sentinel. by destruct (is_bid_ s).
Qed.

Lemma best_price_none_iff_empty_witness :
  (best_price (bid_ (final sc2)) = None ↔ ticks_ (bid_ (final sc2)) = ∅) ∧
  (ticks_ (bid_ (final sc2)) ≠ ∅ →
   best_price (bid_ (final sc2)) = Some (i2p (best_idx (bid_ (final sc2))))).
Proof.
  apply (best_price_none_iff_empty (bid_ (final sc2))).
  apply (bool_decide_unpack _). vm_compute. exact I.
Defined.

(** ** Snapshots *)

Lemma fst_zip_sublist {A B} (l : list A) (k : list B) : (zip l k).*1 `sublist_of` l.
Proof.
  revert k. induction l as [|x l IH]; intros k; [done|].
  destruct k as [|y k]; simpl.
  - apply sublist_nil_l.
  - apply sublist_skip, IH.
Qed.

Lemma VENUES_NoDup : NoDup VENUES.
Proof. apply (bool_decide_unpack _). vm_compute. exact I. Qed.

(** X5. The snapshot of a tick without level is empty; the snapshot of
    a level holds each venue name at most once and holds the pair
    (name, quantity) exactly for the venues of the table whose cell of
    the level is not zero. *)
Theorem snapshot_level_content s t :
  (levels_ s !! t = None → snapshot_level s t = []) ∧
  (∀ pl, levels_ s !! t = Some pl →
     NoDup (snapshot_level s t).*1 ∧
     ∀ name q, (name, q) ∈ snapshot_level s t
               ↔ q ≠ 0 ∧ ∃ i, VENUES !! i = Some name ∧ vqty pl !! i = Some q).
Proof.
  unfold snapshot_level. split; [by intros ->|]. intros pl ->. split.
  - apply (sublist_NoDup _ VENUES); [apply VENUES_NoDup|].
    etrans; [|apply (fst_zip_sublist VENUES (vqty pl))].
    apply fmap_sublist, sublist_filter.
  - intros name q. rewrite list_elem_of_filter, elem_of_lookup_zip_with.
    cbn [snd]. split.
    + intros (Hq & i & x & y & [= -> ->] & Hx & Hy). eauto.
    + intros (Hq & i & Hx & Hy). split; [done|]. by exists i, name, q.
Qed.

Lemma snapshot_level_content_witness :
  NoDup (snapshot_level (bid_ (final sc3)) 1001).*1 ∧
  ∀ name q, (name, q) ∈ snapshot_level (bid_ (final sc3)) 1001
            ↔ q ≠ 0 ∧ ∃ i, VENUES !! i = Some name
                           ∧ [0; 3; 2; 0; 0; 0; 0; 0; 0; 0; 0; 0; 0; 0] !! i = Some q.
Proof.
  apply (proj2 (snapshot_level_content (bid_ (final sc3)) 1001)
           (mkLevel [0; 3; 2; 0; 0; 0; 0; 0; 0; 0; 0; 0; 0; 0] 5)).
  vm_compute. reflexivity.
Defined.

(** ** The effect of an add *)

Lemma on_add_returns st oid vc sd p q v :
  sides_ok st → VENUE_MAP_at vc = Some v →
  ∃ r, on_add st oid vc sd p q = Returned (on_add_state st oid v sd p q) r.
Proof.
  intros Hs Ev.
  destruct (sides_ok_side st (bool_decide (sd = "BID"%string)) Hs) as [Hsok _].
  destruct (decide ((add (side st (bool_decide (sd = "BID"%string))) (p2i p) v q).2
                    = INT_MIN)) as [Hr|Hr].
  - exists None. by apply on_add_none.
  - destruct (add_returns _ (p2i p) v q Hsok Hr) as [r Hn].
    exists (Some r). by apply on_add_some.
Qed.

(** X6. In a state whose sides satisfy the invariants of the data
    model, [on_add] throws exactly when the venue code is not in the
    table, and then the state is the one before the call. *)
Theorem on_add_throws_iff_unknown_venue st oid vc sd p q st' :
  sides_ok st →
  on_add st oid vc sd p q = Thrown st' ↔ VENUE_MAP_at vc = None ∧ st' = st.
Proof.
  intros Hs. destruct (VENUE_MAP_at vc) as [v|] eqn:Ev.
  - split; [|by intros [? _]].
    by destruct (on_add_returns st oid vc sd p q v Hs Ev) as [r ->].
  - rewrite on_add_unknown_venue by done. split.
    + by intros [= ->].
    + by intros [_ ->].
Qed.

Lemma on_add_throws_iff_unknown_venue_witness :
  on_add (final sc1) "b" "q" "BID" 10.01 3 = Thrown (final sc1)
  ↔ VENUE_MAP_at "q" = None ∧ final sc1 = final sc1.
Proof.
  apply (on_add_throws_iff_unknown_venue (final sc1) "b" "q" "BID" 10.01 3).
  apply (bool_decide_unpack _). vm_compute. exact I.
Defined.

Lemma add_agg_at s t v q :
  side_ok s → (v < NUM_VENUES)%nat → 0 < q → agg_at s t + q < 2 ^ 32 →
  agg_at (add s t v q).1 t = agg_at s t + q.
Proof.
  intros Hs Hv Hq Hov. rewrite add_state. unfold agg_at in *.
  cbn [levels_]. rewrite lookup_insert_eq.
  destruct (levels_ s !! t) as [pl|] eqn:E.
  - change (default PriceLevel_new (Some pl)) with pl.
    pose proof (side_ok_level s t pl Hs E) as [Hwf _]%level_ok_wf.
    by destruct (adjust_plus_wf pl v q Hwf Hv ltac:(lia) Hov) as (_ & -> & _).
  - change (default PriceLevel_new None) with PriceLevel_new.
    by destruct (adjust_plus_wf PriceLevel_new v q level_wf_new Hv ltac:(lia) Hov)
      as (_ & -> & _).
Qed.

Lemma on_add_state_vqty_at st oid sd p q v :
  sides_ok st → (v < NUM_VENUES)%nat → add_ok st sd p q →
  ∀ b t v', vqty_at (side (on_add_state st oid v sd p q) b) t v'
            = vqty_at (side st b) t v'
              + contrib b t v' (mkMeta (bool_decide (sd = "BID"%string)) (p2i p) v q).
Proof.
  intros Hs Hv [Hq Hov] b t v'. unfold on_add_state.
  set (bid := bool_decide (sd = "BID"%string)) in *. clearbody bid.
  destruct (sides_ok_side st bid Hs) as [Hsok _].
  destruct (add_side_ok _ (p2i p) v q Hsok Hv Hq Hov) as [_ Hat].
  rewrite side_with_omap, side_with_side.
  unfold contrib. simpl.
  destruct (decide (bid = b)) as [<-|Hne].
  - rewrite Hat. destruct (decide (t = p2i p ∧ v' = v)) as [[-> ->]|Hn].
    + by rewrite bool_decide_eq_true_2.
    + rewrite bool_decide_eq_false_2; [done|].
      intros (_ & <- & <-). by apply Hn.
  - rewrite bool_decide_eq_false_2 by (intros (? & _); done). lia.
Qed.

(** X7. In a state whose sides satisfy the invariants of the data
    model, an add with a recognised venue, a positive quantity and no
    wrap-around of the aggregate returns; it binds the identifier to the
    new entry in the index, overwriting any entry the identifier had,
    adds the quantity to the cell of its (side, tick, venue) and to the
    aggregate of its level, and changes no other cell of the book: the
    quantity of an overwritten entry stays in the book. *)
Theorem on_add_effect st oid vc sd p q v :
  sides_ok st → VENUE_MAP_at vc = Some v → add_ok st sd p q →
  let bid := bool_decide (sd = "BID"%string) in
  let m := mkMeta bid (p2i p) v q in
  ∃ st' r,
    on_add st oid vc sd p q = Returned st' r ∧
    omap_ st' = <[oid := m]> (omap_ st) ∧
    (∀ b t v', vqty_at (side st' b) t v' = vqty_at (side st b) t v' + contrib b t v' m) ∧
    agg_at (side st' bid) (p2i p) = agg_at (side st bid) (p2i p) + q ∧
    sides_ok st'.
Proof.
  intros Hs Ev [Hq Hov] bid m.
  destruct (sides_ok_side st bid Hs) as [Hsok Hbid].
  destruct (VENUE_MAP_at_spec _ _ Ev) as [Hv _].
  destruct (add_side_ok (side st bid) (p2i p) v q Hsok Hv Hq Hov) as [Hs1 Hat].
  destruct (on_add_returns st oid vc sd p q v Hs Ev) as [r Hr].
  exists (on_add_state st oid v sd p q), r. split; [done|]. split; [done|].
  split; [|split].
  - by apply on_add_state_vqty_at.
  - unfold bid. rewrite side_on_add_state. by apply add_agg_at.
  - unfold on_add_state. fold bid.
    apply sides_ok_with_omap, sides_ok_with_side; [done..|].
    by rewrite add_is_bid.
Qed.

Lemma on_add_effect_witness :
  ∃ st' r,
    on_add (final sc2) "a" "I" "BID" 10.01 4 = Returned st' r ∧
    omap_ st' = <["a"%string := mkMeta true 1001 1 4]> (omap_ (final sc2)) ∧
    (∀ b t v', vqty_at (side st' b) t v'
               = vqty_at (side (final sc2) b) t v'
                 + contrib b t v' (mkMeta true 1001 1 4)) ∧
    agg_at (side st' true) 1001 = agg_at (side (final sc2) true) 1001 + 4 ∧
    sides_ok st'.
Proof.
  apply (on_add_effect (final sc2) "a" "I" "BID" 10.01 4 1%nat).
  - apply (bool_decide_unpack _). vm_compute. exact I.
  - reflexivity.
  - vm_compute. split; reflexivity.
Defined.

Lemma best_idx_characterised s m :
  m ∈ ticks_ s →
  (∀ t, t ∈ ticks_ s → if is_bid_ s then t ≤ m else m ≤ t) →
  best_idx s = m.
Proof.
  intros Hm Hbound. assert (ticks_ s ≠ ∅) as Hne by set_solver.
  pose proof (best_idx_elem s Hne) as Hin. specialize (Hbound _ Hin).
  destruct (is_bid_ s) eqn:Hb.
  - pose proof (best_idx_bid_ub s m Hb Hm). lia.
  - pose proof (best_idx_ask_lb s m Hb Hm). lia.
Qed.

Lemma add_ticks s t v q x :
  x ∈ ticks_ (add s t v q).1 ↔
  x ∈ ticks_ s ∨
  (x = t ∧ agg (default PriceLevel_new (levels_ s !! t)) = 0).
Proof.
  rewrite add_state. cbn [ticks_]. case_bool_decide; set_solver.
Qed.

(** X8. On a side that has ticks, an add at a tick that is not strictly
    better than the best one (not above the best bid, not below the best
    ask) returns none and leaves the best tick of the side as it was,
    whatever the quantity and whether the level existed. *)
Theorem on_add_not_improving st oid vc sd p q v :
  let bid := bool_decide (sd = "BID"%string) in
  is_bid_ (side st bid) = bid → ticks_ (side st bid) ≠ ∅ →
  VENUE_MAP_at vc = Some v →
  (if bid then p2i p ≤ best_idx (side st bid) else best_idx (side st bid) ≤ p2i p) →
  on_add st oid vc sd p q = Returned (on_add_state st oid v sd p q) None ∧
  best_idx (side (on_add_state st oid v sd p q) bid) = best_idx (side st bid).
Proof.
  intros bid Hbid Hne Ev Hle.
  assert (best_idx (add (side st bid) (p2i p) v q).1 = best_idx (side st bid)) as Hsame.
  { apply best_idx_characterised.
    - apply add_ticks. left. by apply best_idx_elem.
    - intros x Hx. rewrite add_is_bid, Hbid. apply add_ticks in Hx.
      destruct Hx as [Hx|[-> _]]; [|done]. destruct bid.
      + by apply best_idx_bid_ub.
      + by apply best_idx_ask_lb. }
  split.
  - apply (on_add_none _ _ _ _ _ _ v Ev). fold bid. rewrite add_result.
    case_bool_decide; [done|]. by rewrite bool_decide_eq_false_2 by (by intros H').
  - unfold bid. by rewrite side_on_add_state.
Qed.

Lemma on_add_not_improving_witness :
  sc3 = Returned (on_add_state (final sc2) "c" 2 "BID" 10.01 2) None ∧
  best_idx (side (on_add_state (final sc2) "c" 2 "BID" 10.01 2) true)
  = best_idx (side (final sc2) true).
Proof.
  apply (on_add_not_improving (final sc2) "c" "B" "BID" 10.01 2 2%nat).
  - reflexivity.
  - apply (bool_decide_unpack _). vm_compute. exact I.
  - reflexivity.
  - vm_compute. discriminate.
Defined.

(** ** The effect of a cancel, of a partial execution and of a replace *)

Lemma on_cancel_live_unfold st oid m :
  book_inv st → omap_ st !! oid = Some m → 0 < qty m →
  ∃ s1,
    on_cancel st oid
    = Returned (with_side (with_omap st (delete oid (omap_ st))) (sb m) s1) () ∧
    ∀ t v, vqty_at s1 t v
           = vqty_at (side st (sb m)) t v
             - (if decide (t = idx m ∧ v = vid m) then qty m else 0).
Proof.
  intros Hinv Ho Hpos.
  destruct (live_order_covered st oid m Hinv Ho) as (Hq & Hv & Hcov).
  destruct Hinv as [Hs _]. destruct (sides_ok_side st (sb m) Hs) as [Hsok _].
  unfold vqty_at in Hcov.
  destruct (levels_ (side st (sb m)) !! idx m) as [pl|] eqn:El; [|lia].
  destruct (remove_side_ok _ (idx m) (vid m) (qty m) pl Hsok El Hv ltac:(lia))
    as (s1 & Hrm & _ & _ & Hat).
  exists s1. split; [|done].
  unfold on_cancel. by rewrite Ho, side_with_omap, Hrm.
Qed.

(** X9. Under the invariant of the book, the cancel of an order with a
    positive remaining quantity returns; it erases the identifier from
    the index, takes the remaining quantity of the order out of the cell
    of its (side, tick, venue), changes no other cell of the book, and
    the invariant holds afterwards. *)
Theorem on_cancel_live_effect st oid m :
  book_inv st → omap_ st !! oid = Some m → 0 < qty m →
  ∃ st',
    on_cancel st oid = Returned st' () ∧
    omap_ st' = delete oid (omap_ st) ∧
    (∀ b t v, vqty_at (side st' b) t v = vqty_at (side st b) t v - contrib b t v m) ∧
    book_inv st'.
Proof.
  intros Hinv Ho Hpos.
  destruct (on_cancel_live_unfold st oid m Hinv Ho Hpos) as (s1 & Hc & Hat).
  pose proof (on_cancel_inv st oid Hinv) as Hinv'. rewrite Hc in Hinv'.
  eexists. split; [done|]. split; [by rewrite omap_with_side|]. split; [|done].
  intros b t v. rewrite side_with_side, side_with_omap. unfold contrib.
  destruct (decide (sb m = b)) as [<-|Hne].
  - rewrite Hat. destruct (decide (t = idx m ∧ v = vid m)) as [[-> ->]|Hn].
    + by rewrite bool_decide_eq_true_2.
    + rewrite bool_decide_eq_false_2; [lia|]. intros (_ & <- & <-). by apply Hn.
  - rewrite bool_decide_eq_false_2 by (intros (? & _); done). lia.
Qed.

Lemma on_cancel_live_effect_witness :
  ∃ st',
    on_cancel (final sc3) "b" = Returned st' () ∧
    omap_ st' = delete "b"%string (omap_ (final sc3)) ∧
    (∀ b t v, vqty_at (side st' b) t v
              = vqty_at (side (final sc3) b) t v - contrib b t v (mkMeta true 1001 1 3)) ∧
    book_inv st'.
Proof.
  apply (on_cancel_live_effect (final sc3) "b" (mkMeta true 1001 1 3)).
  - apply (bool_decide_unpack _). vm_compute. exact I.
  - vm_compute. reflexivity.
  - simpl. lia.
Defined.

(** X10. Under the invariant of the book, an execution of less than the
    remaining quantity of an order never throws: it returns the report
    of the level after the trade, whose aggregate and whose cell of the
    venue of the order have decreased by the executed quantity while the
    other cells are unchanged, and the order stays in the index with its
    remaining quantity decreased by the same amount. *)
Theorem on_execute_partial st oid q m :
  book_inv st → omap_ st !! oid = Some m → 0 ≤ q < qty m →
  ∃ st' pl pl',
    levels_ (side st (sb m)) !! idx m = Some pl ∧
    levels_ (side st' (sb m)) !! idx m = Some pl' ∧
    agg pl' = agg pl - q ∧
    (∀ v, cell (vqty pl') v = cell (vqty pl) v - (if decide (v = vid m) then q else 0)) ∧
    omap_ st' = <[oid := mkMeta (sb m) (idx m) (vid m) (qty m - q)]> (omap_ st) ∧
    on_execute st oid q
    = Returned st' (Some (mkExec (i2p (idx m)) (agg pl') (vqty pl') (venue_string pl'))).
Proof.
  intros Hinv Ho Hq.
  destruct (live_order_covered st oid m Hinv Ho) as (Hqm & Hv & Hcov).
  destruct Hinv as [Hs _]. destruct (sides_ok_side st (sb m) Hs) as [Hsok _].
  unfold vqty_at in Hcov.
  destruct (levels_ (side st (sb m)) !! idx m) as [pl|] eqn:El; [|lia].
  pose proof (side_ok_level _ _ pl Hsok El) as [Hwf Hpos]%level_ok_wf.
  destruct (adjust_minus_wf pl (vid m) q Hwf Hv ltac:(lia)) as (_ & Hagg & Hcell).
  pose proof (level_wf_cell pl (vid m) Hwf) as Hc.
  set (pl' := adjust pl (vid m) (to_int (- to_int q))) in *.
  assert (Z.min q (qty m) = q) as Hmin by lia.
  assert (wrap32 (qty m - q) = qty m - q) as Hw
    by (apply wrap32_small; unfold u32 in *; lia).
  set (st' := with_side
                (with_omap st
                   (<[oid := mkMeta (sb m) (idx m) (vid m) (qty m - q)]> (omap_ st)))
                (sb m)
                (mkSide (is_bid_ (side st (sb m))) (ticks_ (side st (sb m)))
                        (<[idx m := pl']> (levels_ (side st (sb m)))))).
  assert (on_execute st oid q
          = Returned st' (Some (mkExec (i2p (idx m)) (agg pl') (vqty pl')
                                       (venue_string pl')))) as He.
  { unfold on_execute. rewrite Ho, side_with_omap, Hmin, Hw.
    rewrite (remove_unfold _ _ _ _ pl El). fold pl'.
    rewrite (bool_decide_eq_false_2 (agg pl' = 0)) by lia.
    cbn [levels_ qty]. rewrite lookup_insert_eq.
    by rewrite (bool_decide_eq_false_2 (qty m - q = 0)) by lia. }
  exists st', pl, pl'. split; [done|]. split.
  { unfold st'. rewrite side_with_side, decide_True by done. cbn [levels_].
    apply lookup_insert_eq. }
  split; [done|]. split; [done|]. split; [|done].
  unfold st'. by rewrite omap_with_side.
Qed.

Lemma on_execute_partial_witness :
  ∃ st' pl pl',
    levels_ (side (final sc3) true) !! 1001 = Some pl ∧
    levels_ (side st' true) !! 1001 = Some pl' ∧
    agg pl' = agg pl - 1 ∧
    (∀ v, cell (vqty pl') v = cell (vqty pl) v - (if decide (v = 1%nat) then 1 else 0)) ∧
    omap_ st' = <["b"%string := mkMeta true 1001 1 (3 - 1)]> (omap_ (final sc3)) ∧
    on_execute (final sc3) "b" 1
    = Returned st' (Some (mkExec (i2p 1001) (agg pl') (vqty pl') (venue_string pl'))).
Proof.
  apply (on_execute_partial (final sc3) "b" 1 (mkMeta true 1001 1 3)).
  - apply (bool_decide_unpack _). vm_compute. exact I.
  - vm_compute. reflexivity.
  - simpl. lia.
Defined.

(** X11. Under the invariant of the book, a replace whose add is
    admissible, whose venue is recognised and whose old identifier is a
    different, live order with a positive remaining quantity returns
    what its add returns; afterwards the old identifier is out of the
    index, the new one is bound to the new entry, and the invariant
    holds. *)
Theorem on_replace_live_effect st n o vc sd p q v m :
  book_inv st → add_ok st sd p q → VENUE_MAP_at vc = Some v →
  omap_ st !! o = Some m → 0 < qty m → o ≠ n →
  ∃ st1 st' r,
    on_add st n vc sd p q = Returned st1 r ∧
    on_replace st n o vc sd p q = Returned st' r ∧
    omap_ st' !! o = None ∧
    omap_ st' !! n = Some (mkMeta (bool_decide (sd = "BID"%string)) (p2i p) v q) ∧
    book_inv st'.
Proof.
  intros Hinv Hok Ev Ho Hpos Hne.
  destruct (on_add_returns st n vc sd p q v (proj1 Hinv) Ev) as [r Ha].
  pose proof (on_add_inv st n vc sd p q Hinv Hok) as Hinv1.
  rewrite Ha in Hinv1. simpl in Hinv1.
  assert (omap_ (on_add_state st n v sd p q) !! o = Some m) as Ho1.
  { unfold on_add_state. simpl. by rewrite lookup_insert_ne. }
  destruct (on_cancel_live_unfold _ o m Hinv1 Ho1 Hpos) as (s1 & Hc & _).
  pose proof (on_cancel_inv _ o Hinv1) as Hinv2. rewrite Hc in Hinv2.
  eexists _, _, r. split; [done|]. split.
  - unfold on_replace. by rewrite Ha, Hc.
  - rewrite omap_with_side. simpl. split; [apply lookup_delete_eq|].
    split; [|done]. rewrite lookup_delete_ne by done. apply lookup_insert_eq.
Qed.

Lemma on_replace_live_effect_witness :
  ∃ st1 st' r,
    on_add (final sc5) "y" "A" "ASK" 19.99 4 = Returned st1 r ∧
    sc5' = Returned st' r ∧
    omap_ st' !! "x"%string = None ∧
    omap_ st' !! "y"%string = Some (mkMeta false 1999 4 4) ∧
    book_inv st'.
Proof.
  apply (on_replace_live_effect (final sc5) "y" "x" "A" "ASK" 19.99 4 4%nat
           (mkMeta false 2000 4 4)).
  - apply (bool_decide_unpack _). vm_compute. exact I.
  - vm_compute. split; reflexivity.
  - reflexivity.
  - vm_compute. reflexivity.
  - simpl. lia.
  - discriminate.
Defined.

(** ** Batches *)

Lemma outcome_map_compose {A B C} (f : A → B) (g : B → C) (o : outcome A) :
  outcome_map g (outcome_map f o) = outcome_map (g ∘ f) o.
Proof. by destruct o. Qed.

Lemma outcome_map_ext {A B} (f g : A → B) (o : outcome A) :
  (∀ x, f x = g x) → outcome_map f o = outcome_map g o.
Proof. intros H. destruct o; simpl; by rewrite ?H. Qed.

Lemma on_batch_loop_acc batch : ∀ st out,
  on_batch_loop st batch out = outcome_map (app out) (on_batch_loop st batch []).
Proof.
  induction batch as [|e rest IH]; intros st out; simpl.
  - by rewrite app_nil_r.
  - destruct (dispatch st e) as [st1 [r|]|st1]; [|by apply IH|done].
    rewrite (IH st1 (out ++ [r])), (IH st1 [r]), outcome_map_compose.
    apply outcome_map_ext. intros x. simpl. by rewrite <- app_assoc.
Qed.

Lemma on_batch_loop_app l1 l2 : ∀ st out,
  on_batch_loop st (l1 ++ l2) out
  = match on_batch_loop st l1 out with
    | Returned st1 out1 => on_batch_loop st1 l2 out1
    | Thrown st1 => Thrown st1
    end.
Proof.
  induction l1 as [|e l1 IH]; intros st out; simpl; [done|].
  destruct (dispatch st e) as [st1 [r|]|st1]; [apply IH..|done].
Qed.

Lemma on_batch_loop_length batch : ∀ st out st' out',
  on_batch_loop st batch out = Returned st' out' →
  (length out' ≤ length out + length batch)%nat.
Proof.
  induction batch as [|e rest IH]; intros st out st' out'; simpl.
  - intros [= _ <-]. lia.
  - destruct (dispatch st e) as [st1 [r|]|st1]; [| |done]; intros H.
    + apply IH in H. rewrite length_app in H. simpl in H. lia.
    + apply IH in H. lia.
Qed.

(** X12. A batch made of two parts is the first part followed by the
    second run from the state the first part left: if the first part
    throws the whole batch throws in the same state, otherwise the
    results of the second part are appended to those of the first. *)
Theorem on_batch_app st l1 l2 :
  on_batch st (l1 ++ l2)
  = match on_batch st l1 with
    | Returned st1 out1 => outcome_map (app out1) (on_batch st1 l2)
    | Thrown st1 => Thrown st1
    end.
Proof.
  unfold on_batch. rewrite on_batch_loop_app.
  destruct (on_batch_loop st l1 []) as [st1 out1|st1]; [|done].
  apply on_batch_loop_acc.
Qed.

(** X13. A batch that returns yields at most one result per event. *)
Theorem on_batch_output_length st batch st' out :
  on_batch st batch = Returned st' out → (length out ≤ length batch)%nat.
Proof. intros H. apply on_batch_loop_length in H. simpl in H. lia. Qed.

Lemma on_batch_output_length_witness :
  (length [ResNbbo (mkNbbo 10.01 3 10.00 5 "C")]
   ≤ length [EvAdd "a" "C" "BID" 10.00 5; EvAdd "b" "I" "BID" 10.01 3;
             EvCancel "ghost"])%nat.
Proof.
  apply (on_batch_output_length OrderBook_new
           [EvAdd "a" "C" "BID" 10.00 5; EvAdd "b" "I" "BID" 10.01 3;
            EvCancel "ghost"]
           (final (on_batch OrderBook_new
              [EvAdd "a" "C" "BID" 10.00 5; EvAdd "b" "I" "BID" 10.01 3;
               EvCancel "ghost"]))).
  vm_compute. reflexivity.
Defined.

(** X14. A batch is not transactional: when the events before an
    unknown command all return, the batch throws at that command in the
    state those events have produced, and the results collected so far
    are not returned. *)
Theorem on_batch_unknown_command st l1 cmd l2 st1 out :
  on_batch st l1 = Returned st1 out →
  on_batch st (l1 ++ EvOther cmd :: l2) = Thrown st1.
Proof.
  unfold on_batch. intros H. by rewrite on_batch_loop_app, H.
Qed.

Lemma on_batch_unknown_command_witness :
  on_batch OrderBook_new
    ([EvAdd "a" "C" "BID" 10.00 5] ++ EvOther "modify" :: [EvCancel "a"])
  = Thrown (final sc1).
Proof.
  apply (on_batch_unknown_command OrderBook_new [EvAdd "a" "C" "BID" 10.00 5]
           "modify" [EvCancel "a"] (final sc1) []).
  vm_compute. reflexivity.
Defined.

(** ** Conservation of quantity *)

Lemma live_sum_rebind (om : gmap string Meta) o m k b t v :
  om !! o = Some m →
  live_sum (<[o := mkMeta (sb m) (idx m) (vid m) k]> om) b t v
  = live_sum om b t v
    - (if decide (sb m = b ∧ idx m = t ∧ vid m = v) then qty m - k else 0).
Proof.
  intros Ho. rewrite live_sum_insert, (live_sum_delete b t v om o m Ho).
  unfold contrib. simpl. case_bool_decide; place.
Qed.

Lemma live_sum_delete_zero (om : gmap string Meta) o m b t v :
  om !! o = Some m → qty m = 0 → live_sum (delete o om) b t v = live_sum om b t v.
Proof.
  intros Ho Hz. rewrite (live_sum_delete b t v om o m Ho).
  unfold contrib. rewrite Hz. case_bool_decide; lia.
Qed.

Lemma conserved_new : conserved OrderBook_new.
Proof.
  intros b t v. rewrite live_sum_empty. unfold vqty_at.
  by destruct b; simpl; rewrite lookup_empty.
Qed.

Lemma conserved_add st oid vc sd p q :
  book_inv st → conserved st → add_ok st sd p q → omap_ st !! oid = None →
  conserved (final (on_add st oid vc sd p q)).
Proof.
  intros [Hs _] Hc Hok Ho. destruct (VENUE_MAP_at vc) as [v|] eqn:Ev;
    [|by rewrite on_add_unknown_venue].
  rewrite (on_add_final _ _ _ _ _ _ v Ev).
  destruct (VENUE_MAP_at_spec _ _ Ev) as [Hv _].
  intros b t v'. rewrite (on_add_state_vqty_at st oid sd p q v Hs Hv Hok).
  unfold on_add_state. simpl.
  rewrite live_sum_insert, delete_id by done. rewrite Hc. lia.
Qed.

(** The removal of [k] units of a live order from its level, after the
    index entry has been rebound to the remaining [qty m - k]. *)
Lemma conserved_take st o m k :
  book_inv st → conserved st → omap_ st !! o = Some m → 0 ≤ k ≤ qty m →
  let st1 := with_omap st (<[o := mkMeta (sb m) (idx m) (vid m) (qty m - k)]> (omap_ st)) in
  match remove (side st (sb m)) (idx m) (vid m) k with
  | Some s1 => conserved (with_side st1 (sb m) s1)
  | None => conserved st1 ∧ qty m = 0
  end.
Proof.
  intros Hinv Hc Ho Hk st1.
  destruct (live_order_covered st o m Hinv Ho) as (Hq & Hv & Hcov).
  destruct Hinv as [Hs _]. destruct (sides_ok_side st (sb m) Hs) as [Hsok _].
  unfold vqty_at in Hcov.
  destruct (levels_ (side st (sb m)) !! idx m) as [pl|] eqn:El.
  - destruct (remove_side_ok _ (idx m) (vid m) k pl Hsok El Hv ltac:(lia))
      as (s1 & -> & _ & _ & Hat).
    intros b t v. rewrite omap_with_side, side_with_side. unfold st1.
    rewrite side_with_omap. simpl. rewrite (live_sum_rebind _ o m _ b t v Ho), Hc.
    destruct (decide (sb m = b)) as [<-|Hne].
    + rewrite Hat. place.
    + place.
  - rewrite remove_absent by done. destruct Hq as [Hq0 _].
    assert (qty m = 0) as Hz by lia. split; [|done].
    intros b t v. unfold st1. rewrite side_with_omap. simpl.
    rewrite (live_sum_rebind _ o m _ b t v Ho), Hc. place.
Qed.

Lemma conserved_cancel st oid :
  book_inv st → conserved st → conserved (final (on_cancel st oid)).
Proof.
  intros Hinv Hc. unfold on_cancel.
  destruct (omap_ st !! oid) as [m|] eqn:Ho; [|done].
  rewrite side_with_omap.
  assert (0 ≤ qty m ≤ qty m) as Hk.
  { destruct (live_order_covered st oid m Hinv Ho) as ([? _] & _). lia. }
  pose proof (conserved_take st oid m (qty m) Hinv Hc Ho Hk) as Ht.
  rewrite Z.sub_diag in Ht. simpl in Ht.
  destruct (remove (side st (sb m)) (idx m) (vid m) (qty m)) as [s1|]; simpl.
  - intros b t v. specialize (Ht b t v).
    rewrite omap_with_side, side_with_side, side_with_omap in *.
    simpl in *. rewrite <- Ht.
    rewrite <- (delete_insert_eq (omap_ st) oid (mkMeta (sb m) (idx m) (vid m) 0)).
    apply (live_sum_delete_zero _ oid (mkMeta (sb m) (idx m) (vid m) 0));
      [apply lookup_insert_eq|done].
  - destruct Ht as [_ Hz]. intros b t v. rewrite side_with_omap. simpl.
    by rewrite (live_sum_delete_zero _ oid m b t v Ho Hz).
Qed.

Lemma conserved_execute st oid q :
  book_inv st → conserved st → u32 q → conserved (final (on_execute st oid q)).
Proof.
  intros Hinv Hc Hq. unfold on_execute.
  destruct (omap_ st !! oid) as [m|] eqn:Ho; [|done].
  rewrite side_with_omap.
  destruct (live_order_covered st oid m Hinv Ho) as (Hqm & _).
  set (take := Z.min q (qty m)).
  assert (0 ≤ take ≤ qty m) as Hk by (unfold u32 in *; lia).
  rewrite (wrap32_small (qty m - take)) by (unfold u32 in *; lia).
  pose proof (conserved_take st oid m take Hinv Hc Ho Hk) as Ht. simpl in Ht.
  destruct (remove (side st (sb m)) (idx m) (vid m) take) as [s1|]; simpl.
  - destruct (levels_ s1 !! idx m) as [pl1|]; [|done]. simpl.
    case_bool_decide as Hz; [|done].
    intros b t v. specialize (Ht b t v).
    rewrite side_with_omap, <- Ht. cbn [omap_ with_omap].
    rewrite omap_with_side. cbn [omap_ with_omap].
    apply (live_sum_delete_zero _ oid (mkMeta (sb m) (idx m) (vid m) (qty m - take)));
      [apply lookup_insert_eq|done].
  - by destruct Ht.
Qed.

Lemma conserved_dispatch st e :
  book_inv st → conserved st → event_ok st e → event_fresh st e →
  conserved (final (dispatch st e)).
Proof.
  intros Hinv Hc Hok Hf. destruct e; simpl in *; rewrite ?final_outcome_map.
  - by apply conserved_add.
  - by apply conserved_execute.
  - by apply conserved_cancel.
  - rewrite on_replace_final.
    pose proof (on_add_inv st new_oid venue_code side_b price qty0 Hinv Hok) as Hi.
    pose proof (conserved_add st new_oid venue_code side_b price qty0 Hinv Hc Hok Hf)
      as Hc1.
    destruct (on_add _ _ _ _ _ _) as [st1 r|st1]; [|done].
    by apply conserved_cancel.
  - done.
Qed.

Lemma reachable_fresh_reachable st : reachable_fresh st → reachable st.
Proof. induction 1; [constructor|by constructor]. Qed.

(** X15. In a book that starts empty and receives admissible events
    whose adds and replaces never enter an identifier that is still in
    the index, every cell of every level equals the sum of the remaining
    quantities of the orders of the index placed at its side, tick and
    venue, and a place without level has no order with quantity left;
    this holds after events that throw as well. *)
Theorem reachable_fresh_conserved st :
  reachable_fresh st →
  ∀ b t v, live_sum (omap_ st) b t v = vqty_at (side st b) t v.
Proof.
  induction 1 as [|st e Hr IH Hok Hf]; [apply conserved_new|].
  apply conserved_dispatch; [|done..].
  by apply reachable_inv, reachable_fresh_reachable.
Qed.

Lemma reachable_fresh_conserved_witness :
  live_sum (omap_ (final (dispatch
              (final (dispatch OrderBook_new (EvAdd "a" "C" "BID" 10.00 5)))
              (EvExecute "a" 5)))) true 1000 0
  = vqty_at (side (final (dispatch
              (final (dispatch OrderBook_new (EvAdd "a" "C" "BID" 10.00 5)))
              (EvExecute "a" 5))) true) 1000 0.
Proof.
  apply reachable_fresh_conserved.
  apply fresh_step; [apply fresh_step; [apply fresh_new| |]| |].
  - vm_compute. split; reflexivity.
  - vm_compute. reflexivity.
  - vm_compute. split; [discriminate|reflexivity].
  - exact I.
Defined.

(** ** Ticks stay in the admitted range *)

Lemma remove_ticks s t v q s1 x :
  remove s t v q = Some s1 → x ∈ ticks_ s1 → x ∈ ticks_ s.
Proof.
  unfold remove. destruct (levels_ s !! t) as [pl|]; [|done].
  case_bool_decide; intros [= <-]; simpl; set_solver.
Qed.

Lemma on_cancel_ticks st oid b x :
  x ∈ ticks_ (side (final (on_cancel st oid)) b) → x ∈ ticks_ (side st b).
Proof.
  unfold on_cancel. destruct (omap_ st !! oid) as [m|]; [|done].
  rewrite side_with_omap.
  destruct (remove (side st (sb m)) (idx m) (vid m) (qty m)) as [s1|] eqn:Hrm; simpl.
  - rewrite side_with_side, side_with_omap.
    destruct (decide (sb m = b)) as [<-|]; [|done]. apply (remove_ticks _ _ _ _ _ _ Hrm).
  - by rewrite side_with_omap.
Qed.

Lemma on_execute_ticks st oid q b x :
  x ∈ ticks_ (side (final (on_execute st oid q)) b) → x ∈ ticks_ (side st b).
Proof.
  unfold on_execute. destruct (omap_ st !! oid) as [m|]; [|done].
  rewrite side_with_omap.
  destruct (remove (side st (sb m)) (idx m) (vid m) _) as [s1|] eqn:Hrm; simpl.
  - assert (x ∈ ticks_ (if decide (sb m = b) then s1 else side st b)
            → x ∈ ticks_ (side st b)) as Hs1.
    { destruct (decide (sb m = b)) as [<-|]; [|done]. apply (remove_ticks _ _ _ _ _ _ Hrm). }
    destruct (levels_ s1 !! idx m) as [pl1|]; simpl.
    + case_bool_decide; rewrite ?side_with_omap, side_with_side, side_with_omap;
        apply Hs1.
    + rewrite side_with_side, side_with_omap. apply Hs1.
  - by rewrite side_with_omap.
Qed.

Lemma on_add_ticks st oid vc sd p q b x :
  x ∈ ticks_ (side (final (on_add st oid vc sd p q)) b) →
  x ∈ ticks_ (side st b) ∨ x = p2i p.
Proof.
  destruct (VENUE_MAP_at vc) as [v|] eqn:Ev.
  - rewrite (on_add_final _ _ _ _ _ _ v Ev). unfold on_add_state.
    rewrite side_with_omap, side_with_side.
    destruct (decide (bool_decide (sd = "BID"%string) = b)) as [<-|]; [|by left].
    rewrite add_ticks. intros [?|[-> _]]; [by left|by right].
  - rewrite on_add_unknown_venue by done. by left.
Qed.

Lemma book_in_range_alt st :
  book_in_range st ↔ ∀ b x, x ∈ ticks_ (side st b) → 0 ≤ x < INT_MAX.
Proof.
  unfold book_in_range, ticks_in_range, set_Forall. split.
  - intros [Hb Ha] [|] x; [apply Hb|apply Ha].
  - intros H. split; intros x; [apply (H true)|apply (H false)].
Qed.

(** X16. When every tick of both sides is in the admitted range, it
    still is after any event whose price, if it has one, converts to a
    tick of that range: an add enters no tick but its own, and a cancel
    or an execution enters none. *)
Theorem dispatch_keeps_ticks_in_range st e :
  book_in_range st → event_in_range e → book_in_range (final (dispatch st e)).
Proof.
  rewrite !book_in_range_alt. intros Hst He b x.
  destruct e; simpl in *; rewrite ?final_outcome_map.
  - intros [Hx| ->]%on_add_ticks; [by apply (Hst b)|done].
  - intros Hx%on_execute_ticks. by apply (Hst b).
  - intros Hx%on_cancel_ticks. by apply (Hst b).
  - rewrite on_replace_final.
    destruct (on_add st new_oid venue_code side_b price qty0) as [st1 r|st1] eqn:Ha.
    + intros Hx%on_cancel_ticks.
      assert (st1 = final (on_add st new_oid venue_code side_b price qty0)) as ->
        by by rewrite Ha.
      apply on_add_ticks in Hx as [Hx| ->]; [by apply (Hst b)|done].
    + assert (st1 = final (on_add st new_oid venue_code side_b price qty0)) as ->
        by by rewrite Ha.
      intros [Hx| ->]%on_add_ticks; [by apply (Hst b)|done].
  - by apply (Hst b).
Qed.

Lemma dispatch_keeps_ticks_in_range_witness :
  book_in_range (final (dispatch (final sc1) (EvAdd "b" "I" "BID" 10.01 3))).
Proof.
  apply (dispatch_keeps_ticks_in_range (final sc1) (EvAdd "b" "I" "BID" 10.01 3)).
  - split; apply (bool_decide_unpack _); vm_compute; exact I.
  - vm_compute. split; congruence.
Defined.

(** ** The best tick and the live orders *)

Lemma sumZ_pos_cell (l : list Z) :
  Forall (λ q, 0 ≤ q) l → 0 < sumZ l → ∃ i, 0 < cell l i.
Proof.
  induction 1 as [|x l Hx Hl IH]; intros Hpos; [simpl in Hpos; lia|].
  rewrite sumZ_cons in Hpos. destruct (decide (0 < x)) as [Hx'|Hx'].
  - by exists 0%nat.
  - destruct IH as [i Hi]; [lia|]. by exists (S i).
Qed.

Lemma live_sum_pos (om : gmap string Meta) b t v :
  metas_ok om → 0 < live_sum om b t v →
  ∃ o m, om !! o = Some m ∧ sb m = b ∧ idx m = t ∧ vid m = v ∧ 0 < qty m.
Proof.
  induction om as [|o m om Ho IH] using map_ind; intros Hok Hpos.
  - rewrite live_sum_empty in Hpos. lia.
  - rewrite live_sum_insert_fresh in Hpos by done.
    apply map_Forall_insert in Hok as [_ Hrest]; [|done].
    unfold contrib in Hpos at 1. destruct (decide (0 < live_sum om b t v)) as [Hl|Hl].
    + destruct (IH Hrest Hl) as (o' & m' & Ho' & Hm').
      exists o', m'. split; [|done].
      rewrite lookup_insert_ne; [done|]. intros ->. congruence.
    + case_bool_decide as Hm; [|lia]. destruct Hm as (? & ? & ?).
      exists o, m. rewrite lookup_insert_eq. repeat split; [done..|lia].
Qed.

Lemma tick_iff_live_order st b t :
  book_inv st → conserved st →
  t ∈ ticks_ (side st b) ↔
  ∃ o m, omap_ st !! o = Some m ∧ sb m = b ∧ idx m = t ∧ 0 < qty m.
Proof.
  intros Hinv Hc. pose proof Hinv as (Hs & Hm & _)%book_inv_alt.
  destruct (sides_ok_side st b Hs) as [Hsok _].
  rewrite (side_ok_tick _ t Hsok). split.
  - intros [pl El]. pose proof (side_ok_level _ _ pl Hsok El) as Hpl.
    destruct Hpl as (_ & (Hpos & Hsum & Hnn) & _).
    destruct (sumZ_pos_cell (vqty pl) Hnn ltac:(lia)) as [v Hv].
    assert (0 < live_sum (omap_ st) b t v) as Hl.
    { rewrite Hc. unfold vqty_at. by rewrite El. }
    destruct (live_sum_pos _ _ _ _ Hm Hl) as (o & m & Ho & ? & ? & _ & ?).
    by exists o, m.
  - intros (o & m & Ho & <- & <- & Hq).
    destruct (live_order_covered st o m Hinv Ho) as (_ & _ & Hcov).
    unfold vqty_at in Hcov.
    destruct (levels_ (side st (sb m)) !! idx m) as [pl|]; [eauto|lia].
Qed.

(** X17. In a book that starts empty and receives admissible events
    that never reuse an identifier still in the index, the ticks of a
    side are exactly the ticks of the orders of that side with quantity
    left; so when such an order exists the best tick is the tick of one
    of them and no such order has a better tick (a higher bid, a lower
    ask). *)
Theorem best_tick_is_best_live_order st b :
  reachable_fresh st →
  (∀ t, t ∈ ticks_ (side st b) ↔
        ∃ o m, omap_ st !! o = Some m ∧ sb m = b ∧ idx m = t ∧ 0 < qty m) ∧
  ((∃ o m, omap_ st !! o = Some m ∧ sb m = b ∧ 0 < qty m) →
   (∃ o m, omap_ st !! o = Some m ∧ sb m = b ∧ 0 < qty m ∧
           idx m = best_idx (side st b)) ∧
   ∀ o m, omap_ st !! o = Some m → sb m = b → 0 < qty m →
          if b then idx m ≤ best_idx (side st b) else best_idx (side st b) ≤ idx m).
Proof.
  intros Hr.
  assert (book_inv st) as Hinv by by apply reachable_inv, reachable_fresh_reachable.
  assert (conserved st) as Hc.
  { clear Hinv. induction Hr as [|st e Hr IH Hok Hf]; [apply conserved_new|].
    apply conserved_dispatch; [|done..].
    by apply reachable_inv, reachable_fresh_reachable. }
  pose proof (λ t, tick_iff_live_order st b t Hinv Hc) as Hticks.
  split; [done|]. intros (o & m & Ho & Hb & Hq).
  destruct (sides_ok_side st b (proj1 Hinv)) as [_ Hbid].
  assert (ticks_ (side st b) ≠ ∅) as Hne.
  { assert (idx m ∈ ticks_ (side st b)) by (apply Hticks; by exists o, m).
    set_solver. }
  split.
  - pose proof (best_idx_elem _ Hne) as Hin. apply Hticks in Hin.
    destruct Hin as (o' & m' & ? & ? & ? & ?). by exists o', m'.
  - intros o' m' Ho' Hb' Hq'.
    assert (idx m' ∈ ticks_ (side st b)) as Hin by (apply Hticks; by exists o', m').
    destruct b.
    + by apply best_idx_bid_ub.
    + by apply best_idx_ask_lb.
Qed.

Lemma best_tick_is_best_live_order_witness :
  1001 ∈ ticks_ (side (final (dispatch
                   (final (dispatch OrderBook_new (EvAdd "a" "C" "BID" 10.00 5)))
                   (EvAdd "b" "I" "BID" 10.01 3))) true)
  ↔ ∃ o m, omap_ (final (dispatch
                   (final (dispatch OrderBook_new (EvAdd "a" "C" "BID" 10.00 5)))
                   (EvAdd "b" "I" "BID" 10.01 3))) !! o = Some m
           ∧ sb m = true ∧ idx m = 1001 ∧ 0 < qty m.
Proof.
  apply (best_tick_is_best_live_order
           (final (dispatch
              (final (dispatch OrderBook_new (EvAdd "a" "C" "BID" 10.00 5)))
              (EvAdd "b" "I" "BID" 10.01 3))) true).
  apply fresh_step; [apply fresh_step; [apply fresh_new| |]| |].
  - vm_compute. split; reflexivity.
  - vm_compute. reflexivity.
  - vm_compute. split; reflexivity.
  - vm_compute. reflexivity.
Defined.
